(** * TokenButler baselines: the masking logic of [LlamaAttentionExperimental]

    A shallow embedding of [modify_models/modify_llama_baselines.py]:
    the token-sparsity scheduler, the fallback causal mask, the cache
    normalisation at the head of [forward], the policy dispatch, and the
    incremental eviction algorithms of the [snapkv] and [h2o_true]
    policies (prefill loop and single-token decode).

    Conventions of the embedding.
    - Python floats are idealised as exact rationals ([Q]); [int(x)] is
      truncation towards zero.
    - A tensor over (batch, heads, ...) is modelled by one (batch x head)
      slice: every operation of the eviction code acts row by row, and
      the step budget is the same scalar for every row.
    - The attention score matrix [Q.K^T / sqrt(head_dim)] and, for
      [snapkv], its row-wise softmax are inputs of the model.
    - Raised exceptions are values of [exn]; a call that raises returns
      [Raise e] and nothing else. *)

From Stdlib Require Import ZArith QArith Qround Lia Bool Ascii String.
From stdpp Require Import base tactics option list.

Local Open Scope string_scope.
Local Open Scope list_scope.
Local Open Scope nat_scope.

(** ** Exceptions and the result monad *)

Inductive exn : Type :=
| UnknownTokenSparsityMethod (name : string)  (* ValueError, set_token_sparsity *)
| UnknownEvalMode (name : string)             (* ValueError, forward *)
| FloatValueError (text : string)             (* ValueError raised by float() *)
| IndexError
| AssertionError (msg : string)
| AttributeError
| ZeroDivisionError
| RuntimeError (msg : string).

Inductive result (A : Type) : Type :=
| Ok (a : A)
| Raise (e : exn).
Arguments Ok {A} a.
Arguments Raise {A} e.

Definition bind {A B : Type} (r : result A) (k : A -> result B) : result B :=
  match r with
  | Ok a => k a
  | Raise e => Raise e
  end.

Notation "x <-- r ;; k" := (bind r (fun x => k))
  (at level 100, r at next level, right associativity).

Definition is_ok {A : Type} (r : result A) : bool :=
  match r with Ok _ => true | Raise _ => false end.

(** ** Python string helpers used by [set_token_sparsity] *)

Module PyStr.

(** [sub in s] *)
Fixpoint contains (sub s : string) : bool :=
  String.prefix sub s
  || match s with
     | EmptyString => false
     | String _ s' => contains sub s'
     end.

(** The text before the first occurrence of character [c] (all of [s]
    when there is none). *)
Fixpoint before_char (c : ascii) (s : string) : string :=
  match s with
  | EmptyString => EmptyString
  | String a s' => if Ascii.eqb a c then EmptyString else String a (before_char c s')
  end.

(** The text after the first occurrence of [c], if there is one. *)
Fixpoint after_char (c : ascii) (s : string) : option string :=
  match s with
  | EmptyString => None
  | String a s' => if Ascii.eqb a c then Some s' else after_char c s'
  end.

(** [s.split(c)[1]] for a one-character separator: the piece between
    the first and the second separator; IndexError if [s] has none. *)
Definition split_char_1 (c : ascii) (s : string) : result string :=
  match after_char c s with
  | Some rest => Ok (before_char c rest)
  | None => Raise IndexError
  end.

(** [s.split(sep)[0]] for a non-empty separator: the text before the
    first occurrence of [sep]. *)
Fixpoint split_0 (sep s : string) : string :=
  if String.prefix sep s then EmptyString
  else match s with
       | EmptyString => EmptyString
       | String a s' => String a (split_0 sep s')
       end.

Definition digit_of (a : ascii) : option Z :=
  let n := nat_of_ascii a in
  if (48 <=? n)%nat && (n <=? 57)%nat then Some (Z.of_nat (n - 48)) else None.

(** Value and number of digits of a (possibly empty) digit string. *)
Fixpoint digits (acc : Z) (len : nat) (s : string) : option (Z * nat) :=
  match s with
  | EmptyString => Some (acc, len)
  | String a s' =>
      match digit_of a with
      | Some d => digits (10 * acc + d)%Z (S len) s'
      | None => None
      end
  end.

(** [float(s)] on plain decimal numerals [[+-]digits[.digits]], the
    spellings schedule names use.  The other spellings Python accepts
    (exponents, inf, nan, surrounding blanks) are not modelled and are
    rejected here. *)
Definition float_unsigned (s : string) : option Q :=
  let ip := before_char "." s in
  match after_char "." s with
  | None =>
      match digits 0 0 ip with
      | Some (v, S _) => Some (inject_Z v)
      | _ => None
      end
  | Some fp =>
      match digits 0 0 ip, digits 0 0 fp with
      | Some (vi, li), Some (vf, lf) =>
          match li + lf with
          | O => None
          | S _ => Some (inject_Z vi + Qmake vf (Pos.pow 10 (Pos.of_nat lf)))%Q
          end
      | _, _ => None
      end
  end.

Definition float (s : string) : result Q :=
  let r :=
    match s with
    | String "-" s' => option_map Qopp (float_unsigned s')
    | String "+" s' => float_unsigned s'
    | _ => float_unsigned s
    end in
  match r with
  | Some q => Ok q
  | None => Raise (FloatValueError s)
  end.

End PyStr.

(** [int(x)] for a float [x]: truncation towards zero. *)
Definition py_int (x : Q) : Z := Z.quot (Qnum x) (Zpos (Qden x)).

(** ** The token-sparsity scheduler ([set_token_sparsity])

    The attribute [sparse_aggression] that the method assigns is the
    fraction of tokens a layer RETAINS ([1] means keep everything); the
    drop fraction is [1 - sparse_aggression]. *)

Definition set_token_sparsity (token_sparse_method : option string)
    (layer_idx : nat) : result Q :=
  match token_sparse_method with
  | None => Raise (AssertionError "Set token sparse method first!")
  | Some m =>
      if String.eqb m "LazyLLM" then
        if layer_idx <=? 9 then Ok 1%Q
        else if layer_idx <=? 19 then Ok (7 # 10)%Q
        else if layer_idx <=? 28 then Ok (4 # 10)%Q
        else Ok (1 # 10)%Q
      else if PyStr.contains "fixed" m then
        if layer_idx =? 0 then Ok 1%Q
        else
          piece <-- PyStr.split_char_1 "_" m ;;
          x <-- PyStr.float (PyStr.split_0 "pc" piece) ;;
          Ok (1 - x / 100)%Q
      else if PyStr.contains "progressive" m then
        piece <-- PyStr.split_char_1 "_" m ;;
        x <-- PyStr.float (PyStr.split_0 "pc" piece) ;;
        let pc_drop := (x / 100)%Q in
        Ok ((1 - pc_drop) ^ Z.of_nat layer_idx)%Q
      else Raise (UnknownTokenSparsityMethod m)
  end.

Definition drop_fraction (sparse_aggression : Q) : Q := (1 - sparse_aggression)%Q.

(** ** Additive masks

    A mask entry or an attention logit is a rational or minus infinity;
    a selection mask only ever holds [Fin 0] (attend) and [NegInf]. *)

Inductive ext : Type :=
| NegInf
| Fin (q : Q).

Definition ext_add (a b : ext) : ext :=
  match a, b with
  | Fin x, Fin y => Fin (x + y)
  | _, _ => NegInf
  end.

Definition is_neg_inf (a : ext) : bool :=
  match a with NegInf => true | Fin _ => false end.

Definition row_add (a b : list ext) : list ext := zip_with ext_add a b.
Definition matrix_add (a b : list (list ext)) : list (list ext) := zip_with row_add a b.
Definition lift_scores (scores : list (list Q)) : list (list ext) := fmap (M:=list) (fmap (M:=list) Fin) scores.

(** ** The fallback causal mask (forward, lines 249-255)

    [torch.ones((bsz, 1, q_len, kv_seq_len)).triu(diagonal=1)] is true
    at (r, c) exactly when [c - r >= 1]; those entries are filled with
    minus infinity, the others stay 0.  Every batch element gets the
    same (q_len x kv_seq_len) matrix. *)

Definition causal_mask (q_len kv_seq_len : nat) : list (list ext) :=
  fmap (fun r => fmap (fun c => if r <? c then NegInf else Fin 0) (seq 0 kv_seq_len))
      (seq 0 q_len).

(** The mask of the specification: the q_len query rows are the LAST
    q_len of the kv_seq_len positions, so row [r] is position
    [r + (K - Q)] and masks the keys strictly after it. *)
Definition spec_causal_mask (q_len kv_seq_len : nat) : list (list ext) :=
  fmap (fun r => fmap (fun c => if r + (kv_seq_len - q_len) <? c then NegInf else Fin 0)
                    (seq 0 kv_seq_len))
      (seq 0 q_len).

(** ** Budgets of the incremental eviction algorithms

    [max(int(n * self.sparse_aggression), min_sparse_index)]: the code
    evaluates this expression with [n = q_len] or [key_len] for
    [max_budget] and with [n = i + 1] for the budget of step [i]. *)

Definition budget_for (sparse_aggression : Q) (min_sparse_index : nat) (n : nat) : Z :=
  Z.max (py_int (inject_Z (Z.of_nat n) * sparse_aggression)) (Z.of_nat min_sparse_index).

Definition step_budget (sparse_aggression : Q) (min_sparse_index : nat) (i : nat) : Z :=
  budget_for sparse_aggression min_sparse_index (i + 1).



(** ** The active-token set and one eviction step *)

Record eviction_state : Type := {
  active_tokens : list nat;   (* one row of the [combined_bh x max_budget] tensor *)
  active_counts : nat
}.

(** [torch.min(t, dim=1)] on one row: the minimum and the index of its
    first occurrence; the reduction of an empty row raises an
    IndexError. *)
Fixpoint min_with_index (l : list Q) : option (Q * nat) :=
  match l with
  | [] => None
  | x :: l' =>
      match min_with_index l' with
      | None => Some (x, 0)
      | Some (m, j) => if Qle_bool x m then Some (x, 0) else Some (m, S j)
      end
  end.

Definition torch_min (l : list Q) : result (Q * nat) :=
  match min_with_index l with
  | Some r => Ok r
  | None => Raise IndexError
  end.

(** [row.gather(1, idx)]: an index outside the row raises. *)
Fixpoint gather (imp : list Q) (idx : list nat) : result (list Q) :=
  match idx with
  | [] => Ok []
  | t :: idx' =>
      match imp !! t with
      | Some v => vs <-- gather imp idx' ;; Ok (v :: vs)
      | None => Raise (RuntimeError "gather(): index out of range")
      end
  end.

(** [t[idx] = v] on one row: writing outside the row raises. *)
Definition set_item (l : list nat) (idx v : nat) : result (list nat) :=
  if idx <? length l then Ok (<[idx := v]> l) else Raise IndexError.

Definition get_item (l : list Q) (idx : nat) : result Q :=
  match l !! idx with
  | Some v => Ok v
  | None => Raise IndexError
  end.

(** The body shared by the snapkv loop (lines 483-503) and the h2o_true
    loop (lines 609-625) for one row: [imp] is that step's importance
    row ([aggregator_pooled] resp. [row_weights]), [i] the new token. *)
Definition evict_step (budget : Z) (imp : list Q) (i : nat)
    (st : eviction_state) : result eviction_state :=
  if (Z.of_nat (active_counts st) <? budget)%Z then
    (* can_add *)
    toks <-- set_item (active_tokens st) (active_counts st) i ;;
    Ok {| active_tokens := toks; active_counts := S (active_counts st) |}
  else
    (* cannot_add: replace the least important active token, or drop i *)
    let current_active := take (Z.to_nat budget) (active_tokens st) in
    row_imps <-- gather imp current_active ;;
    min_r <-- torch_min row_imps ;;
    new_imp <-- get_item imp i ;;
    if Qlt_le_dec (fst min_r) new_imp then
      toks <-- set_item (active_tokens st) (snd min_r) i ;;
      Ok {| active_tokens := toks; active_counts := active_counts st |}
    else Ok st.

(** The tokens the mask of a step un-masks:
    [active_tokens[row, p]] for [p < max_budget] and [p < active_counts]. *)
Definition valid_tokens (st : eviction_state) : list nat :=
  take (active_counts st) (active_tokens st).

(** Row [i] of [final_mask_2d] after the step: minus infinity except at
    the valid tokens; a token outside the row raises. *)
Definition mask_row (kv_seq_len : nat) (st : eviction_state) : result (list ext) :=
  if forallb (fun t => t <? kv_seq_len) (valid_tokens st) then
    Ok (fmap (fun c => if bool_decide (c ∈ valid_tokens st) then Fin 0 else NegInf)
            (seq 0 kv_seq_len))
  else Raise IndexError.

(** [mask[..., :min_sparse_index] = 0.0] on one row. *)
Definition force_prefix (min_sparse_index : nat) (r : list ext) : list ext :=
  replicate (min_sparse_index `min` length r) (Fin 0) ++ drop min_sparse_index r.

(** ** The prefill loop, [for i in range(1, q_len)] *)

Fixpoint for_each {S : Type} (body : S -> nat -> result S) (iters : list nat)
    (acc : S) : result S :=
  match iters with
  | [] => Ok acc
  | i :: rest => acc' <-- body acc i ;; for_each body rest acc'
  end.

Section Incremental.
Variable sparse_aggression : Q.
Variable min_sparse_index : nat.
(** The importance row of step [i]. *)
Variable importance : nat -> list Q.

Definition initial_state (max_budget : Z) : eviction_state :=
  {| active_tokens := replicate (Z.to_nat max_budget) 0; active_counts := 1 |}.

Definition loop_body (kv_seq_len : nat) (acc : eviction_state * list (list ext))
    (i : nat) : result (eviction_state * list (list ext)) :=
  st' <-- evict_step (step_budget sparse_aggression min_sparse_index i)
                     (importance i) i (fst acc) ;;
  r <-- mask_row kv_seq_len st' ;;
  Ok (st', snd acc ++ [r]).

(** The loop with row 0 set by [final_mask_2d[:, 0, 0] = 0.0] before
    it; returns the state after the last step and all mask rows, not
    yet prefix-forced. *)
Definition eviction_loop (max_budget : Z) (q_len kv_seq_len : nat)
    : result (eviction_state * list (list ext)) :=
  if (q_len =? 0) || (kv_seq_len =? 0) then Raise IndexError
  else
    for_each (loop_body kv_seq_len) (seq 1 (q_len - 1))
             (initial_state max_budget, [ <[0 := Fin 0]> (replicate kv_seq_len NegInf) ]).

(** The selection mask of a prefill call and the state it leaves. *)
Definition incremental_prefill (max_budget : Z) (q_len kv_seq_len : nat)
    : result (list (list ext) * eviction_state) :=
  r <-- eviction_loop max_budget q_len kv_seq_len ;;
  Ok (fmap (force_prefix min_sparse_index) (snd r), fst r).
End Incremental.

(** ** Importance signals *)

Definition entry (m : list (list Q)) (r c : nat) : Q :=
  match m !! r with
  | Some row => default 0%Q (row !! c)
  | None => 0%Q
  end.

(** [prefix_sums_2d[r, c]], the [cumsum] over query rows of the
    softmaxed attention. *)
Definition prefix_sum (probs : list (list Q)) (r c : nat) : Q :=
  foldr Qplus 0%Q (fmap (fun r' => entry probs r' c) (seq 0 (S r))).

Definition obs_size : nat := 32.
Definition kernel_size : nat := 7.

(** The attention mass the observation window ending at row [i] gives
    to each of the keys [0..i] (lines 460-471). *)
Definition snapkv_aggregator (probs : list (list Q)) (i : nat) : list Q :=
  let obs_start := i + 1 - obs_size in     (* max(0, i - obs_size + 1) *)
  fmap (fun c =>
         if 0 <? obs_start
         then (prefix_sum probs i c - prefix_sum probs (obs_start - 1) c)%Q
         else prefix_sum probs i c)
      (seq 0 (i + 1)).

Definition Qmax_list (x : Q) (l : list Q) : Q :=
  fold_left (fun a b => if Qle_bool a b then b else a) l x.

(** [F.max_pool1d(row, kernel_size=k, stride=1, padding=p)]: the padding
    never wins a maximum, so entry [c] is the maximum of the entries
    [c - p .. c - p + k - 1] that exist. *)
Definition max_pool1d (k p : nat) (l : list Q) : list Q :=
  fmap (fun c =>
         let lo := c - p in
         let hi := c + (k - 1 - p) in
         match take (hi + 1 - lo) (drop lo l) with
         | [] => 0%Q
         | x :: w => Qmax_list x w
         end)
      (seq 0 (length l + 2 * p + 1 - k)).

(** [aggregator_pooled] of step [i] of the snapkv loop. *)
Definition snapkv_importance (probs : list (list Q)) (i : nat) : list Q :=
  max_pool1d kernel_size (kernel_size / 2) (snapkv_aggregator probs i).

(** [row_weights = attn_weights_2d[:, i, :i + 1]] of the h2o_true loop. *)
Definition h2o_row_weights (scores : list (list Q)) (i : nat) : list Q :=
  take (i + 1) (default [] (scores !! i)).

(** ** The snapkv policy on a layer with [layer_idx > 0] *)

(** Prefill ([q_len != 1], lines 426-526): the selection mask and the
    row persisted in [self.snapkv_cache]. *)
Definition snapkv_prefill (sparse_aggression : Q) (min_sparse_index : nat)
    (importance : nat -> list Q) (q_len kv_seq_len : nat)
    : result (list (list ext) * list ext) :=
  let max_budget := budget_for sparse_aggression min_sparse_index q_len in
  r <-- incremental_prefill sparse_aggression min_sparse_index importance
          max_budget q_len kv_seq_len ;;
  match last (fst r) with
  | Some final_row => Ok (fst r, final_row)
  | None => Raise IndexError
  end.

(** Single-token decode (lines 418-424): the persisted row is copied
    into the front of a row of minus infinities and everything behind
    it is set to 0.  Without a persisted row [.size] raises; a persisted
    row longer than the keys cannot be assigned. *)
Definition snapkv_decode (snapkv_cache : option (list ext)) (kv_seq_len : nat)
    : result (list ext) :=
  match snapkv_cache with
  | None => Raise AttributeError
  | Some cache =>
      let original_kv_len := length cache in
      if original_kv_len <=? kv_seq_len then
        Ok (cache ++ replicate (kv_seq_len - original_kv_len) (Fin 0))
      else Raise (RuntimeError "shape mismatch in slice assignment")
  end.

(** The decode step of [snapkv_prefill_wrong] (lines 353-381): the same
    merge, clipped to [limit = min(new_kv_len, cached_len)]; [None]
    when there is no persisted row and nothing is added. *)
Definition snapkv_wrong_decode (snapkv_cache : option (list ext)) (kv_seq_len : nat)
    : option (list ext) :=
  match snapkv_cache with
  | None => None
  | Some cache =>
      let limit := kv_seq_len `min` length cache in
      Some (take limit cache ++ replicate (kv_seq_len - limit) (Fin 0))
  end.

(** ** The h2o_true policy on a layer with [layer_idx > 0] *)

(** Prefill (lines 592-639).  Unlike the snapkv loop, this one writes
    [active_tokens[:, 0] = 0] (line 599) before it starts, which fails
    on a tensor allocated with [max_budget = 0] columns. *)
Definition h2o_prefill (sparse_aggression : Q) (min_sparse_index : nat)
    (importance : nat -> list Q) (q_len kv_seq_len : nat)
    : result (list (list ext) * eviction_state) :=
  let max_budget := budget_for sparse_aggression min_sparse_index kv_seq_len in
  if (max_budget <=? 0)%Z then Raise IndexError
  else
    incremental_prefill sparse_aggression min_sparse_index importance
      max_budget q_len kv_seq_len.

(** Single-token decode with a persisted state (lines 539-589);
    [row_scores] is the only row of the attention scores. *)
Definition h2o_decode (sparse_aggression : Q) (min_sparse_index : nat)
    (kv_seq_len : nat) (row_scores : list Q) (h2o_importance_history : eviction_state)
    : result (list ext * eviction_state) :=
  let max_budget := budget_for sparse_aggression min_sparse_index kv_seq_len in
  let prev0 := active_tokens h2o_importance_history in
  let prev_active_counts := active_counts h2o_importance_history in
  let prev_active_tokens :=
    if (Z.of_nat (length prev0) <=? max_budget)%Z
    then take (Z.to_nat max_budget + 1) (prev0 ++ replicate (length prev0) 0)
    else prev0 in
  let new_token_id := kv_seq_len - 1 in
  let row_weights := take (new_token_id + 1) row_scores in
  let kv_cache_budget :=
    budget_for sparse_aggression min_sparse_index (new_token_id + 1) in
  st <--
    (if (Z.of_nat prev_active_counts <? kv_cache_budget)%Z then
       (* index [prev_active_counts - 1]; -1 is the last slot *)
       let slot := match prev_active_counts with
                   | O => length prev_active_tokens - 1
                   | S c => c
                   end in
       toks <-- set_item prev_active_tokens slot new_token_id ;;
       Ok {| active_tokens := toks; active_counts := S prev_active_counts |}
     else
       let current_active := take (Z.to_nat kv_cache_budget) prev_active_tokens in
       active_importances <-- gather row_weights current_active ;;
       min_r <-- torch_min active_importances ;;
       new_importance <-- get_item row_weights new_token_id ;;
       if Qlt_le_dec (fst min_r) new_importance then
         toks <-- set_item prev_active_tokens (snd min_r) new_token_id ;;
         Ok {| active_tokens := toks; active_counts := prev_active_counts |}
       else Ok {| active_tokens := prev_active_tokens;
                  active_counts := prev_active_counts |}) ;;
  (* valid_positions = arange(max_budget) < prev_active_counts *)
  r <-- mask_row kv_seq_len
          {| active_tokens := take (Z.to_nat max_budget) (active_tokens st);
             active_counts := active_counts st |} ;;
  Ok (r, st).

(** ** The cache argument of [forward] (lines 183-186)

    What [forward] inspects of [past_key_value]: whether it is [None],
    a [BaselineDynamicCache], another [DynamicCache], or some other
    object, the stored sequence length and the persisted h2o state. *)

Record baseline_cache : Type := {
  seq_length : nat;
  h2o_importance : option eviction_state
}.

Inductive cache_arg : Type :=
| NoCache                                  (* None *)
| Baseline (c : baseline_cache)            (* a BaselineDynamicCache *)
| PlainDynamic (stored_length : nat)       (* a DynamicCache that is not one *)
| OtherObject.                             (* anything else *)

(** [BaselineDynamicCache()] *)
Definition fresh_baseline : baseline_cache :=
  {| seq_length := 0; h2o_importance := None |}.

Definition is_none (p : cache_arg) : bool :=
  match p with NoCache => true | _ => false end.
Definition isinstance_Baseline (p : cache_arg) : bool :=
  match p with Baseline _ => true | _ => false end.
Definition isinstance_DynamicCache (p : cache_arg) : bool :=
  match p with Baseline _ | PlainDynamic _ => true | _ => false end.
Definition get_seq_length (p : cache_arg) : nat :=
  match p with
  | Baseline c => seq_length c
  | PlainDynamic n => n
  | _ => 0
  end.

Definition normalize_cache (past_key_value : cache_arg) : result cache_arg :=
  if negb (is_none past_key_value) && negb (isinstance_Baseline past_key_value) then
    if isinstance_DynamicCache past_key_value
       && negb (get_seq_length past_key_value =? 0)
    then Raise (AssertionError "If past_key_value is DynamicCache, then it must be empty")
    else Ok (Baseline fresh_baseline)
  else Ok past_key_value.

(** ** The policy dispatch of [forward] (lines 258-700) *)

Record layer : Type := {
  layer_idx : nat;
  producer : option nat;      (* [self.producer]: the layer given to [__init__], if any *)
  eval_llm_mode : string;
  sparse_aggression : Q;
  min_sparse_index : nat;
  head_dim : nat;
  group_factor : nat
}.

(** What a policy branch leaves behind: the attention logits before the
    causal mask of line 703, [final_mask], [self.snapkv_cache] and
    [h2o_importance_history]. *)
Record branch_out : Type := {
  attn_weights : list (list ext);
  final_mask : option (list (list ext));
  snapkv_cache : option (list ext);
  h2o_history : option eviction_state
}.

(** [attn_weights[:, :, -1, :] += row] *)
Definition add_to_last_row (m : list (list ext)) (r : list ext) : list (list ext) :=
  match m with
  | [] => []
  | _ => take (length m - 1) m ++ [row_add (default [] (last m)) r]
  end.

Section Forward.
(** Code of this repository that lies outside the source file: the
    importance ranking of the top-k policies followed by
    [utils.sorted_index_to_mask], and [utils.snapkv_mask_only].  Both
    are arbitrary here. *)
Variable topk_selection :
  layer -> list (list Q) -> list (list ext) -> result (list (list ext)).
Variable snapkv_mask_only : list (list Q) -> option (list ext).

Definition dense_out (scores : list (list Q)) (cache : option (list ext))
    (hist : option eviction_state) : branch_out :=
  {| attn_weights := lift_scores scores; final_mask := None;
     snapkv_cache := cache; h2o_history := hist |}.

(** A top-k branch; [always_add] tells whether the branch itself adds the
    attention mask for every query length (streamingLLM,
    oracle_grouped, quest) or only when [q_len != 1] (oracle family). *)
Definition topk_out (L : layer) (scores : list (list Q))
    (attention_mask : list (list ext)) (always_add : bool)
    (cache : option (list ext)) (hist : option eviction_state) : result branch_out :=
  mask_tensor <-- topk_selection L scores attention_mask ;;
  let attn := matrix_add (lift_scores scores) mask_tensor in
  let attn := if always_add || negb (length scores =? 1)
              then matrix_add attn attention_mask else attn in
  Ok {| attn_weights := attn; final_mask := Some mask_tensor;
        snapkv_cache := cache; h2o_history := hist |}.

Definition policy_branch (L : layer) (scores probs : list (list Q))
    (attention_mask : list (list ext)) (cache : option (list ext))
    (hist : option eviction_state) : result branch_out :=
  let evalmode := eval_llm_mode L in
  let q_len := length scores in
  let kv_seq_len := length (default [] (head scores)) in
  let dense := Ok (dense_out scores cache hist) in
  if String.eqb evalmode "dense" then dense
  else if existsb (String.eqb evalmode)
            ["oracle"; "random"; "init_oracle"; "lookahead_oracle"]
          || PyStr.contains "oracle" evalmode then
    (* lines 272-274: [self.producer.init_token_importance] is read
       before [sparse_aggression] is looked at *)
    if existsb (String.eqb evalmode) ["init_oracle"; "lookahead_oracle"]
       && (0 <? layer_idx L) && negb (bool_decide (is_Some (producer L)))
    then Raise AttributeError
    else if 0 <? layer_idx L then
      if Qlt_le_dec (sparse_aggression L) 1
      then topk_out L scores attention_mask false cache hist
      else dense
    else dense
  else if String.eqb evalmode "streamingLLM" then
    if 0 <? layer_idx L then topk_out L scores attention_mask true cache hist
    else dense
  else if String.eqb evalmode "oracle_grouped" then
    if 0 <? layer_idx L then topk_out L scores attention_mask true cache hist
    else dense
  else if String.eqb evalmode "snapkv_prefill_wrong" then
    if 0 <? layer_idx L then
      if q_len =? 1 then
        match snapkv_wrong_decode cache kv_seq_len with
        | Some extended_mask =>
            Ok {| attn_weights := matrix_add (lift_scores scores) [extended_mask];
                  final_mask := None; snapkv_cache := cache; h2o_history := hist |}
        | None => dense
        end
      else
        match snapkv_mask_only scores with
        | Some new_mask =>
            Ok {| attn_weights := add_to_last_row (lift_scores scores) new_mask;
                  final_mask := None; snapkv_cache := Some new_mask;
                  h2o_history := hist |}
        | None => Ok (dense_out scores None hist)
        end
    else dense
  else if String.eqb evalmode "snapkv" then
    if 0 <? layer_idx L then
      if q_len =? 1 then
        extended_mask <-- snapkv_decode cache kv_seq_len ;;
        Ok {| attn_weights := matrix_add (lift_scores scores) [extended_mask];
              final_mask := None; snapkv_cache := cache; h2o_history := hist |}
      else
        r <-- snapkv_prefill (sparse_aggression L) (min_sparse_index L)
                (snapkv_importance probs) q_len kv_seq_len ;;
        Ok {| attn_weights := matrix_add (lift_scores scores) (fst r);
              final_mask := Some (fst r); snapkv_cache := Some (snd r);
              h2o_history := hist |}
    else dense
  else if String.eqb evalmode "h2o_true" then
    if 0 <? layer_idx L then
      match q_len =? 1, hist with
      | true, Some history =>
          r <-- h2o_decode (sparse_aggression L) (min_sparse_index L) kv_seq_len
                  (default [] (head scores)) history ;;
          Ok {| attn_weights := matrix_add (lift_scores scores) [fst r];
                final_mask := Some [fst r]; snapkv_cache := cache;
                h2o_history := Some (snd r) |}
      | _, _ =>
          r <-- h2o_prefill (sparse_aggression L) (min_sparse_index L)
                  (h2o_row_weights scores) q_len kv_seq_len ;;
          Ok {| attn_weights := matrix_add (lift_scores scores) (fst r);
                final_mask := Some (fst r); snapkv_cache := cache;
                h2o_history := Some (snd r) |}
      end
    else dense
  else if String.eqb evalmode "quest" then
    if 0 <? layer_idx L then topk_out L scores attention_mask true cache hist
    else dense
  else Raise (UnknownEvalMode evalmode).

(** ** [forward], from the cache check to the logits handed to softmax *)

Record forward_out : Type := {
  logits : list (list ext);               (* attn_weights before the softmax of line 704 *)
  selection_mask : option (list (list ext));   (* final_mask *)
  snapkv_cache_after : option (list ext);
  past_key_value_after : cache_arg
}.

Definition forward (L : layer) (cache : option (list ext))
    (past_key_value : cache_arg) (use_cache : bool)
    (attention_mask : option (list (list ext)))
    (scores probs : list (list Q)) : result forward_out :=
  let q_len := length scores in
  let kv_seq_len := length (default [] (head scores)) in
  past_key_value <-- normalize_cache past_key_value ;;
  let h2o_importance_history :=
    match past_key_value with
    | Baseline c => h2o_importance c
    | _ => None
    end in
  past_key_value <--
    (if use_cache then
       match past_key_value with
       | Baseline c =>
           Ok (Baseline {| seq_length := seq_length c + q_len;
                           h2o_importance := h2o_importance c |})
       | _ => Raise AttributeError
       end
     else Ok past_key_value) ;;
  let attention_mask := default (causal_mask q_len kv_seq_len) attention_mask in
  if group_factor L =? 0 then Raise ZeroDivisionError
  else if negb (head_dim L mod group_factor L =? 0) then Raise (AssertionError "")
  else
    b <-- policy_branch L scores probs attention_mask cache h2o_importance_history ;;
    let attn := if negb (q_len =? 1)
                then matrix_add (attn_weights b) attention_mask
                else attn_weights b in
    let past_key_value :=
      if use_cache then
        if String.eqb (eval_llm_mode L) "h2o_true" then
          match past_key_value with
          | Baseline c =>
              Baseline {| seq_length := seq_length c;
                          h2o_importance := h2o_history b |}
          | p => p
          end
        else past_key_value
      else NoCache in
    Ok {| logits := attn; selection_mask := final_mask b;
          snapkv_cache_after := snapkv_cache b;
          past_key_value_after := past_key_value |}.
End Forward.

(** The names the dispatch of [forward] has a branch for. *)
Definition accepted_eval_mode (evalmode : string) : bool :=
  existsb (String.eqb evalmode)
    ["dense"; "oracle"; "random"; "init_oracle"; "lookahead_oracle";
     "streamingLLM"; "oracle_grouped"; "snapkv_prefill_wrong"; "snapkv";
     "h2o_true"; "quest"]
  || PyStr.contains "oracle" evalmode.

(** The schedule and policy names the specification lists. *)
Module SpecNames.

(** [name] is [prefix ++ X ++ "pc"] for a decimal numeral [X]. *)
Definition percent_name (prefix name : string) : bool :=
  String.prefix prefix name
  && (let rest := String.substring (String.length prefix)
                    (String.length name - String.length prefix) name in
      let n := String.length rest in
      (2 <=? n)
      && String.eqb (String.substring (n - 2) 2 rest) "pc"
      && is_ok (PyStr.float (String.substring 0 (n - 2) rest))).

Definition known_schedule (name : string) : bool :=
  String.eqb name "LazyLLM"
  || percent_name "fixed_" name
  || percent_name "progressive_" name.

Definition known_policy (name : string) : bool :=
  existsb (String.eqb name)
    ["dense"; "oracle"; "random"; "init_oracle"; "lookahead_oracle";
     "streamingLLM"; "oracle_grouped"; "quest"; "snapkv"; "h2o_true";
     "snapkv_prefill_wrong"].

End SpecNames.

(** ** Notions used in the statements *)

Definition with_eval_mode (L : layer) (evalmode : string) : layer :=
  {| layer_idx := layer_idx L; producer := producer L; eval_llm_mode := evalmode;
     sparse_aggression := sparse_aggression L;
     min_sparse_index := min_sparse_index L;
     head_dim := head_dim L; group_factor := group_factor L |}.

(** The logits of dense attention: the scores, plus the attention mask
    unless a single token is decoded (line 702). *)
Definition dense_logits (attention_mask : option (list (list ext)))
    (scores : list (list Q)) : list (list ext) :=
  let q_len := length scores in
  let kv_seq_len := length (default [] (head scores)) in
  if negb (q_len =? 1)
  then matrix_add (lift_scores scores)
         (default (causal_mask q_len kv_seq_len) attention_mask)
  else lift_scores scores.

(** The state of the loop once the steps [1..n] have run. *)
Definition state_after (s : Q) (msi : nat) (importance : nat -> list Q)
    (max_budget : Z) (kv_seq_len n : nat) : result eviction_state :=
  r <-- for_each (loop_body s msi importance kv_seq_len) (seq 1 n)
          (initial_state max_budget, [ <[0 := Fin 0]> (replicate kv_seq_len NegInf) ]) ;;
  Ok (fst r).

(** The two ways a step can end. *)
Inductive step_outcome (budget : Z) (imp : list Q) (i : nat)
    (st st' : eviction_state) : Prop :=
| Inserted :
    (Z.of_nat (active_counts st) < budget)%Z ->
    active_counts st < length (active_tokens st) ->
    st' = {| active_tokens := <[active_counts st := i]> (active_tokens st);
             active_counts := S (active_counts st) |} ->
    step_outcome budget imp i st st'
| AtCapacity (row_imps : list Q) (min_val new_imp : Q) (pos : nat) :
    (budget <= Z.of_nat (active_counts st))%Z ->
    gather imp (take (Z.to_nat budget) (active_tokens st)) = Ok row_imps ->
    min_with_index row_imps = Some (min_val, pos) ->
    imp !! i = Some new_imp ->
    ((min_val < new_imp)%Q
     /\ pos < length (active_tokens st)
     /\ st' = {| active_tokens := <[pos := i]> (active_tokens st);
                 active_counts := active_counts st |}
     \/ (new_imp <= min_val)%Q /\ st' = st) ->
    step_outcome budget imp i st st'.

Definition same_active (st1 st2 : eviction_state) : Prop :=
  active_counts st1 = active_counts st2 /\ valid_tokens st1 = valid_tokens st2.

(** ** Example inputs *)

Definition no_topk : layer -> list (list Q) -> list (list ext) -> result (list (list ext)) :=
  fun _ _ _ => Raise (RuntimeError "not needed on layer 0").
Definition no_snapkv_mask : list (list Q) -> option (list ext) := fun _ => None.

Definition example_layer (idx : nat) (evalmode : string) (retained : Q) (msi : nat) : layer :=
  {| layer_idx := idx; producer := match idx with O => None | S _ => Some 0 end;
     eval_llm_mode := evalmode; sparse_aggression := retained;
     min_sparse_index := msi; head_dim := 64; group_factor := 8 |}.

Definition example_scores : list (list Q) :=
  [[0; 0; 0; 0]; [0; 0; 0; 0]; [0; 5; 10; 0]; [0; 1; 2; 3]]%Q.

Definition example_scores5 : list (list Q) :=
  [[0; 0; 0; 0; 0]; [0; 0; 0; 0; 0]; [0; 5; 10; 0; 0]; [0; 1; 2; 3; 0];
   [9; 9; 9; 9; 0]]%Q.

Definition example_probs : list (list Q) :=
  [[1; 0; 0; 0]; [1 # 2; 1 # 2; 0; 0]; [1 # 4; 1 # 4; 1 # 2; 0];
   [1 # 4; 1 # 4; 1 # 4; 1 # 4]]%Q.

(** ** Counting attendable keys *)

(** The number of entries of a mask row that are not minus infinity. *)
Fixpoint attendable (row : list ext) : nat :=
  match row with
  | [] => 0
  | a :: row' => (if is_neg_inf a then 0 else 1) + attendable row'
  end.

(** ** The sparsity accountant (forward, lines 707-720)

    The masks of all (batch x head) slices are given as pairs of the
    slice of [final_mask] and the slice of [attention_mask] it is
    added to.  A float that is [nan] or infinite is [NotFinite]. *)

Inductive pyfloat : Type :=
| Finite (q : Q)
| NotFinite.

(** [t.bool()] on one entry: true for everything that is not zero. *)
Definition ext_bool (a : ext) : bool :=
  match a with
  | NegInf => true
  | Fin q => negb (Qeq_bool q 0)
  end.

(** [t.sum(dim=-1)] of a boolean row. *)
Fixpoint count_true (l : list bool) : nat :=
  match l with
  | [] => 0
  | b :: l' => (if b then 1 else 0) + count_true l'
  end.

(** One entry of [additional_deact.float() / num_active.float()]. *)
Definition sparsity_ratio (final_row attention_row : list ext) : pyfloat :=
  let true_mask := row_add final_row attention_row in
  let num_deact := count_true (ext_bool <$> true_mask) in
  let causally_deact := count_true (ext_bool <$> attention_row) in
  let additional_deact := (Z.of_nat num_deact - Z.of_nat causally_deact)%Z in
  let num_active := count_true ((fun a => negb (ext_bool a)) <$> attention_row) in
  if num_active =? 0 then NotFinite
  else Finite (inject_Z additional_deact / inject_Z (Z.of_nat num_active)).

Definition sparsity_ratios (slices : list (list (list ext) * list (list ext)))
    : list pyfloat :=
  concat ((fun sl => zip_with sparsity_ratio (fst sl) (snd sl)) <$> slices).

Fixpoint float_sum (l : list pyfloat) : pyfloat :=
  match l with
  | [] => Finite 0
  | Finite q :: l' =>
      match float_sum l' with
      | Finite t => Finite (q + t)
      | NotFinite => NotFinite
      end
  | NotFinite :: _ => NotFinite
  end.

(** [t.mean()]: the mean of no value at all is [nan]. *)
Definition float_mean (l : list pyfloat) : pyfloat :=
  match l, float_sum l with
  | _ :: _, Finite t => Finite (t / inject_Z (Z.of_nat (length l)))
  | _, _ => NotFinite
  end.

Definition effective_sparsity_of (slices : list (list (list ext) * list (list ext)))
    : pyfloat :=
  match float_mean (sparsity_ratios slices) with
  | Finite m => Finite (100 * m)
  | NotFinite => NotFinite
  end.

(** The update of [self.effective_sparsity] at the end of a call:
    [slices] is [None] when the call built no [final_mask]. *)
Definition account_sparsity (layer_idx : nat)
    (slices : option (list (list (list ext) * list (list ext))))
    (effective_sparsity : option pyfloat) : option pyfloat :=
  let effective_sparsity :=
    match slices, effective_sparsity with
    | Some sl, None => Some (effective_sparsity_of sl)
    | _, current => current
    end in
  if layer_idx =? 0 then
    match effective_sparsity with
    | None => Some (Finite 0)
    | current => current
    end
  else effective_sparsity.

(** A selection mask holds nothing but 0 and minus infinity. *)
Definition legal_mask_value (a : ext) : Prop := a = Fin 0 \/ a = NegInf.

(** The two masks of a slice have the same shape and every query row
    of the attention mask leaves some key active. *)
Definition well_formed_slice (sl : list (list ext) * list (list ext)) : Prop :=
  Forall2 (fun final_row attention_row =>
             length final_row = length attention_row
             /\ Forall legal_mask_value final_row
             /\ exists a, a ∈ attention_row /\ ext_bool a = false)
          (fst sl) (snd sl).

(** The keys a row of the selection mask suppresses although the
    attention mask leaves them active. *)
Fixpoint suppressed (final_row attention_row : list ext) : nat :=
  match final_row, attention_row with
  | f :: fr, a :: ar =>
      (if is_neg_inf f && negb (ext_bool a) then 1 else 0) + suppressed fr ar
  | _, _ => 0
  end.

(** A ratio between 0 and 1. *)
Definition unit_ratio (r : pyfloat) : Prop :=
  exists q, r = Finite q /\ (0 <= q)%Q /\ (q <= 1)%Q.

(** No row of the slice suppresses a key that its attention mask
    leaves active. *)
Definition suppresses_nothing (sl : list (list ext) * list (list ext)) : Prop :=
  Forall2 (fun final_row attention_row => suppressed final_row attention_row = 0)
          (fst sl) (snd sl).

(** ** The streamingLLM rank table ([generate_ll_six], lines 96-103)

    Row [curr_l - 1] ranks the keys for the query at that position:
    the four sink tokens, then the tokens [curr_l - 1, ..., 4] from the
    most recent back, then all remaining positions in the order in
    which Python iterates over the set difference.  That order is not
    fixed by the language; [set_to_list] maps the members of a set
    (given in ascending order) to it. *)

Section StreamingRanks.
Variable set_to_list : list nat -> list nat.

Definition ll_six_row (q_len curr_l : nat) : list nat :=
  let mt := [0; 1; 2; 3] ++ rev (seq 4 (curr_l - 4)) in
  let remmt := set_to_list (filter (fun x => x ∉ mt) (seq 0 q_len)) in
  mt ++ remmt.

Definition generate_ll_six (q_len : nat) : list (list nat) :=
  ll_six_row q_len <$> seq 1 q_len.
End StreamingRanks.

(** ** Grafting the attention onto a model
       ([convert_kvcache_experimental], lines 762-799)

    A model is a tree of modules.  The conversion walks the children of
    a module in order, descends into a child before looking at it, and
    replaces every [LlamaAttention] by a [LlamaAttentionExperimental].
    The children of a [LlamaAttention] are its projections, which hold
    no attention module, so the walk through them changes nothing.  A
    converted layer records its [layer_idx] and its producer, named
    here by the value of the counter when the producer was created. *)

Inductive module : Type :=
| LlamaAttention
| Experimental (layer_idx : nat) (producer : option nat)
| Container (children : list module).

(** [layer_counter['idx']] and [producer_layer]. *)
Definition conv_state : Type := nat * option nat.

Definition convert_attention (producer_frequency : Z) (st : conv_state)
    : result (module * conv_state) :=
  let idx := fst st in
  if (producer_frequency =? 0)%Z then Raise ZeroDivisionError
  else if (Z.of_nat idx mod producer_frequency =? 0)%Z then
    (* LlamaAttentionExperimental(config): layer_idx = 0, no producer *)
    Ok (Experimental 0 None, (S idx, Some idx))
  else
    Ok (Experimental idx (snd st), (S idx, snd st)).

Fixpoint convert_module (producer_frequency : Z) (m : module) (st : conv_state)
    {struct m} : result (module * conv_state) :=
  match m with
  | LlamaAttention => convert_attention producer_frequency st
  | Experimental _ _ => Ok (m, st)
  | Container children =>
      r <-- (fix recurse_convert (cs : list module) (st : conv_state)
               : result (list module * conv_state) :=
               match cs with
               | [] => Ok ([], st)
               | c :: cs' =>
                   r1 <-- convert_module producer_frequency c st ;;
                   r2 <-- recurse_convert cs' (snd r1) ;;
                   Ok (fst r1 :: fst r2, snd r2)
               end) children st ;;
      Ok (Container (fst r), snd r)
  end.

(** [recurse_convert(parent_module)] on the children of the parent. *)
Fixpoint recurse_convert (producer_frequency : Z) (cs : list module)
    (st : conv_state) : result (list module * conv_state) :=
  match cs with
  | [] => Ok ([], st)
  | c :: cs' =>
      r1 <-- convert_module producer_frequency c st ;;
      r2 <-- recurse_convert producer_frequency cs' (snd r1) ;;
      Ok (fst r1 :: fst r2, snd r2)
  end.

(** The children the walk starts from: [model._modules]. *)
Definition children_of (m : module) : list module :=
  match m with
  | Container children => children
  | _ => []
  end.

Definition with_children (m : module) (children : list module) : module :=
  match m with
  | Container _ => Container children
  | _ => m
  end.

(** The whole conversion; [producer_layer.to(...)] raises when no
    attention module was found. *)
Definition convert_kvcache_experimental (model : module) (producer_frequency : Z)
    : result module :=
  r <-- recurse_convert producer_frequency (children_of model) (0, None) ;;
  match snd (snd r) with
  | None => Raise AttributeError
  | Some _ => Ok (with_children model (fst r))
  end.

(** The converted layers of a model, in the order of the walk, and the
    number of attention modules still to convert. *)
Fixpoint experimental_layers (m : module) : list (nat * option nat) :=
  match m with
  | LlamaAttention => []
  | Experimental l p => [(l, p)]
  | Container children => concat (experimental_layers <$> children)
  end.

Fixpoint attention_count (m : module) : nat :=
  match m with
  | LlamaAttention => 1
  | Experimental _ _ => 0
  | Container children => foldr (fun c n => attention_count c + n) 0 children
  end.

(** What the [k]-th attention module becomes under a positive producer
    frequency: a producer, or a consumer of the latest producer. *)
Definition assigned_layer (producer_frequency : Z) (k : nat) : nat * option nat :=
  if (Z.of_nat k mod producer_frequency =? 0)%Z then (0, None)
  else (k, Some (k - Z.to_nat (Z.of_nat k mod producer_frequency))).

(** The state of the walk before the [idx]-th attention module: no
    producer yet, or the producer created at the latest multiple of the
    frequency. *)
Definition walk_state (producer_frequency : Z) (st : conv_state) : Prop :=
  match fst st with
  | O => snd st = None
  | S k => snd st = Some (Z.to_nat (producer_frequency * (Z.of_nat k / producer_frequency)))
  end.

Definition example_model : module :=
  Container [Container [LlamaAttention; Container []]; Container [LlamaAttention];
             LlamaAttention; Container [Container [LlamaAttention; LlamaAttention]]].

(** * Properties *)

(** ** The scheduler *)

Lemma lazyllm_retained (l : nat) :
  set_token_sparsity (Some "LazyLLM") l =
  Ok (if l <=? 9 then 1 else if l <=? 19 then 7 # 10
      else if l <=? 28 then 4 # 10 else 1 # 10)%Q.
Proof.
  unfold set_token_sparsity. simpl String.eqb. cbv iota.
  destruct (l <=? 9); [reflexivity|].
  destruct (l <=? 19); [reflexivity|].
  destruct (l <=? 28); reflexivity.
Qed.

(** C6. [fixed_25pc] at layer 5 retains 0.75, i.e. drops 0.25;
    [progressive_10pc] at layer 3 retains 0.9^3 = 0.729; [LazyLLM] drops
    nothing at layer 9 and 30% at layer 10, and in general drops 0% up to
    layer 9, 30% up to 19, 60% up to 28 and 90% afterwards. *)
Theorem set_token_sparsity_literals :
  (exists q, set_token_sparsity (Some "fixed_25pc") 5 = Ok q
             /\ q == 3 # 4 /\ drop_fraction q == 1 # 4)%Q
  /\ (exists q, set_token_sparsity (Some "progressive_10pc") 3 = Ok q
                /\ q == (9 # 10) ^ 3 /\ q == 729 # 1000)%Q
  /\ (exists q, set_token_sparsity (Some "LazyLLM") 9 = Ok q /\ drop_fraction q == 0)%Q
  /\ (exists q, set_token_sparsity (Some "LazyLLM") 10 = Ok q
                /\ drop_fraction q == 3 # 10)%Q
  /\ (forall l : nat, exists q,
        set_token_sparsity (Some "LazyLLM") l = Ok q
        /\ drop_fraction q ==
           (if l <=? 9 then 0 else if l <=? 19 then 3 # 10
            else if l <=? 28 then 6 # 10 else 9 # 10))%Q.
Proof.
  repeat split.
  - eexists. split; [vm_compute; reflexivity|]. split; reflexivity.
  - eexists. split; [vm_compute; reflexivity|]. split; reflexivity.
  - eexists. split; [apply lazyllm_retained|]. reflexivity.
  - eexists. split; [apply lazyllm_retained|]. reflexivity.
  - intros l. eexists. split; [apply lazyllm_retained|].
    destruct (l <=? 9); [reflexivity|].
    destruct (l <=? 19); [reflexivity|].
    destruct (l <=? 28); reflexivity.
Qed.

Lemma bind_raise_inv {A B : Type} (r : result A) (k : A -> result B) (e : exn) :
  bind r k = Raise e ->
  r = Raise e \/ exists a, r = Ok a /\ k a = Raise e.
Proof. destruct r as [a|e']; simpl; intros H; [right; eauto | left; congruence]. Qed.

Lemma Ok_inj {A : Type} (a b : A) : Ok a = Ok b -> a = b.
Proof. congruence. Qed.

Lemma bind_ok_inv {A B : Type} (r : result A) (k : A -> result B) (b : B) :
  bind r k = Ok b -> exists a, r = Ok a /\ k a = Ok b.
Proof. destruct r as [a|e']; simpl; intros H; [eauto | discriminate]. Qed.

Lemma split_char_1_raises (c : ascii) (s : string) (e : exn) :
  PyStr.split_char_1 c s = Raise e -> e = IndexError.
Proof.
  unfold PyStr.split_char_1. destruct (PyStr.after_char c s); congruence.
Qed.

Lemma float_raises (s : string) (e : exn) :
  PyStr.float s = Raise e -> e = FloatValueError s.
Proof.
  unfold PyStr.float.
  match goal with |- match ?r with _ => _ end = _ -> _ => destruct r end; congruence.
Qed.

(** The unknown-method error comes from the final [else] and from
    nowhere else. *)
Lemma set_token_sparsity_unknown_iff (m : string) (l : nat) :
  set_token_sparsity (Some m) l = Raise (UnknownTokenSparsityMethod m)
  <-> String.eqb m "LazyLLM" = false
      /\ PyStr.contains "fixed" m = false
      /\ PyStr.contains "progressive" m = false.
Proof.
  unfold set_token_sparsity. split.
  - destruct (String.eqb m "LazyLLM").
    { repeat match goal with |- context [if ?b then _ else _] => destruct b end;
        discriminate. }
    destruct (PyStr.contains "fixed" m).
    { destruct (l =? 0); [discriminate|]. intros H.
      apply bind_raise_inv in H as [H|(piece & _ & H)].
      - apply split_char_1_raises in H. discriminate.
      - apply bind_raise_inv in H as [H|(x & _ & H)]; [|discriminate].
        apply float_raises in H. discriminate. }
    destruct (PyStr.contains "progressive" m); [|auto].
    intros H. apply bind_raise_inv in H as [H|(piece & _ & H)].
    + apply split_char_1_raises in H. discriminate.
    + apply bind_raise_inv in H as [H|(x & _ & H)]; [|discriminate].
      apply float_raises in H. discriminate.
  - intros (-> & -> & ->). reflexivity.
Qed.

(** ** Unknown names *)

Section UnknownNames.
Variable topk_selection :
  layer -> list (list Q) -> list (list ext) -> result (list (list ext)).
Variable snapkv_mask_only : list (list Q) -> option (list ext).

Lemma policy_branch_unknown (L : layer) (scores probs : list (list Q))
    (attention_mask : list (list ext)) (cache : option (list ext))
    (hist : option eviction_state) :
  accepted_eval_mode (eval_llm_mode L) = false ->
  policy_branch topk_selection snapkv_mask_only L scores probs attention_mask
    cache hist = Raise (UnknownEvalMode (eval_llm_mode L)).
Proof.
  unfold accepted_eval_mode, policy_branch. cbn [existsb].
  intros H. apply orb_false_elim in H as [H0 H].
  repeat (apply orb_false_elim in H0 as [? H0]).
  repeat match goal with
         | Hx : String.eqb _ _ = false |- _ => rewrite Hx; clear Hx
         end.
  rewrite H. reflexivity.
Qed.

Lemma forward_unknown (L : layer) (cache : option (list ext))
    (past_key_value : cache_arg) (use_cache : bool)
    (attention_mask : option (list (list ext))) (scores probs : list (list Q)) :
  accepted_eval_mode (eval_llm_mode L) = false ->
  exists e, forward topk_selection snapkv_mask_only L cache past_key_value
              use_cache attention_mask scores probs = Raise e.
Proof.
  intros H. unfold forward.
  destruct (normalize_cache past_key_value) as [p|e]; [|eexists; reflexivity].
  cbn [bind].
  destruct use_cache; [destruct p|]; cbn [bind]; try (eexists; reflexivity);
    (destruct (group_factor L =? 0); [eexists; reflexivity|];
     destruct (negb (head_dim L mod group_factor L =? 0)); [eexists; reflexivity|];
     rewrite policy_branch_unknown by exact H; eexists; reflexivity).
Qed.
End UnknownNames.

(** C7, as the code has it.  [set_token_sparsity] raises its
    unknown-method error exactly for the names that are not ["LazyLLM"]
    and contain neither ["fixed"] nor ["progressive"]; the dispatch of
    [forward] raises its unknown-mode error for every name that is none
    of the branch names and does not contain ["oracle"], and then
    [forward] returns no output at all. *)
Theorem unknown_names_raise
    (topk_selection : layer -> list (list Q) -> list (list ext) -> result (list (list ext)))
    (snapkv_mask_only : list (list Q) -> option (list ext))
    (m : string) (l : nat) (L : layer) (cache : option (list ext))
    (past_key_value : cache_arg) (use_cache : bool)
    (attention_mask : option (list (list ext))) (scores probs : list (list Q)) :
  (set_token_sparsity (Some m) l = Raise (UnknownTokenSparsityMethod m)
   <-> String.eqb m "LazyLLM" = false
       /\ PyStr.contains "fixed" m = false
       /\ PyStr.contains "progressive" m = false)
  /\ (accepted_eval_mode (eval_llm_mode L) = false ->
      policy_branch topk_selection snapkv_mask_only L scores probs
        (default (causal_mask (length scores) (length (default [] (head scores))))
                 attention_mask)
        cache None = Raise (UnknownEvalMode (eval_llm_mode L))
      /\ exists e, forward topk_selection snapkv_mask_only L cache past_key_value
                     use_cache attention_mask scores probs = Raise e).
Proof.
  split; [apply set_token_sparsity_unknown_iff|].
  intros H. split; [apply policy_branch_unknown | apply forward_unknown]; exact H.
Qed.

Lemma unknown_names_raise_witness :
  set_token_sparsity (Some "cosine") 4 = Raise (UnknownTokenSparsityMethod "cosine")
  /\ exists e, forward no_topk no_snapkv_mask (example_layer 1 "h2o" (1 # 2) 2)
                 None NoCache false None [[1; 2]; [3; 4]]%Q [] = Raise e.
Proof.
  pose proof (unknown_names_raise no_topk no_snapkv_mask "cosine" 4
                (example_layer 1 "h2o" (1 # 2) 2) None NoCache false None
                [[1; 2]; [3; 4]]%Q []) as [Hs Hf].
  split.
  - apply Hs. repeat split; reflexivity.
  - apply Hf. reflexivity.
Defined.

(** C7 as stated fails: names outside the listed schedules and policies
    are accepted when they merely contain ["fixed"] or ["oracle"]. *)
Lemma lenient_name_matching :
  SpecNames.known_schedule "fixedgarbage" = false
  /\ set_token_sparsity (Some "fixedgarbage") 0 = Ok 1%Q
  /\ SpecNames.known_schedule "unfixed_50" = false
  /\ is_ok (set_token_sparsity (Some "unfixed_50") 3) = true
  /\ SpecNames.known_policy "oracle_v2" = false
  /\ forward no_topk no_snapkv_mask (example_layer 0 "oracle_v2" (1 # 2) 2)
       None NoCache false None [[1; 2]; [3; 4]]%Q []
     = Ok {| logits := [[Fin (1 + 0); NegInf]; [Fin (3 + 0); Fin (4 + 0)]];
             selection_mask := None; snapkv_cache_after := None;
             past_key_value_after := NoCache |}.
Proof. repeat split; vm_compute; reflexivity. Qed.

(** ** The fallback causal mask *)

Lemma causal_mask_entry (q_len kv_seq_len r c : nat) :
  r < q_len -> c < kv_seq_len ->
  causal_mask q_len kv_seq_len !! r ≫= (.!! c)
  = Some (if r <? c then NegInf else Fin 0).
Proof.
  intros Hr Hc. unfold causal_mask.
  rewrite list_lookup_fmap, lookup_seq_lt by lia. simpl.
  rewrite list_lookup_fmap, lookup_seq_lt by lia. reflexivity.
Qed.

(** On a square mask (a prefill without earlier keys) the two
    alignments coincide. *)
Lemma causal_mask_square (n : nat) : causal_mask n n = spec_causal_mask n n.
Proof.
  unfold causal_mask, spec_causal_mask. rewrite Nat.sub_diag.
  apply list_fmap_ext. intros _ r _. apply list_fmap_ext. intros _ c _.
  rewrite Nat.add_0_r. reflexivity.
Qed.

(** C5.  With one query row over two keys (a decode step and no mask
    from the caller) the built mask hides key 1, the query's own
    position, where the tail-aligned mask of the claim is all zero. *)
Theorem causal_mask_top_left_aligned :
  causal_mask 1 2 = [[Fin 0; NegInf]]
  /\ spec_causal_mask 1 2 = [[Fin 0; Fin 0]]
  /\ causal_mask 1 2 <> spec_causal_mask 1 2.
Proof. repeat split. discriminate. Qed.

(** ** The step budget *)

Lemma py_int_floor (x : Q) : (0 <= x)%Q -> py_int x = Qfloor x.
Proof.
  destruct x as [n d]. unfold Qle, py_int, Qfloor. simpl. intros H.
  apply Z.quot_div_nonneg; lia.
Qed.

Lemma budget_for_mono (s : Q) (msi n m : nat) :
  (0 <= s)%Q -> n <= m -> (budget_for s msi n <= budget_for s msi m)%Z.
Proof.
  intros Hs Hnm. unfold budget_for.
  assert (Hn : (0 <= inject_Z (Z.of_nat n))%Q).
  { change 0%Q with (inject_Z 0). rewrite <- Zle_Qle. lia. }
  assert (Hle : (inject_Z (Z.of_nat n) <= inject_Z (Z.of_nat m))%Q).
  { rewrite <- Zle_Qle. lia. }
  rewrite !py_int_floor.
  - apply Z.max_le_compat_r, Qfloor_resp_le, Qmult_le_compat_r; assumption.
  - apply Qmult_le_0_compat; [|exact Hs]. eapply Qle_trans; eassumption.
  - apply Qmult_le_0_compat; assumption.
Qed.




(** ** The cache argument *)

(** C9.  A [past_key_value] that is neither [None] nor a
    [BaselineDynamicCache]: a [DynamicCache] with stored tokens makes
    [forward] fail its assertion; an empty one, or any other object, is
    dropped and the call proceeds exactly as with a fresh
    [BaselineDynamicCache]. *)
Theorem forward_replaces_foreign_cache
    (topk_selection : layer -> list (list Q) -> list (list ext) -> result (list (list ext)))
    (snapkv_mask_only : list (list Q) -> option (list ext))
    (L : layer) (cache : option (list ext)) (use_cache : bool)
    (attention_mask : option (list (list ext))) (scores probs : list (list Q)) :
  let fwd p := forward topk_selection snapkv_mask_only L cache p use_cache
                 attention_mask scores probs in
  (forall n : nat,
     normalize_cache (PlainDynamic (S n))
     = Raise (AssertionError "If past_key_value is DynamicCache, then it must be empty")
     /\ fwd (PlainDynamic (S n))
        = Raise (AssertionError "If past_key_value is DynamicCache, then it must be empty"))
  /\ normalize_cache (PlainDynamic 0) = Ok (Baseline fresh_baseline)
  /\ normalize_cache OtherObject = Ok (Baseline fresh_baseline)
  /\ fwd (PlainDynamic 0) = fwd (Baseline fresh_baseline)
  /\ fwd OtherObject = fwd (Baseline fresh_baseline).
Proof.
  cbv zeta. repeat split; reflexivity.
Qed.

(** ** The decode step of snapkv *)

Lemma snapkv_decode_appended (cache row : list ext) (kv_seq_len j : nat) :
  snapkv_decode (Some cache) kv_seq_len = Ok row ->
  length cache <= j -> j < kv_seq_len ->
  row !! j = Some (Fin 0).
Proof.
  unfold snapkv_decode. destruct (length cache <=? kv_seq_len) eqn:E; [|discriminate].
  intros [= <-] Hj Hk. rewrite lookup_app_r by exact Hj.
  apply lookup_replicate_2. lia.
Qed.

Lemma snapkv_wrong_decode_appended (cache row : list ext) (kv_seq_len j : nat) :
  snapkv_wrong_decode (Some cache) kv_seq_len = Some row ->
  length cache <= j -> j < kv_seq_len ->
  row !! j = Some (Fin 0).
Proof.
  unfold snapkv_wrong_decode. intros [= <-] Hj Hk.
  rewrite lookup_app_r; rewrite length_take; [|lia].
  apply lookup_replicate_2. lia.
Qed.

Lemma row_add_lookup (a b : list ext) (j : nat) (x : Q) :
  a !! j = Some (Fin x) -> b !! j = Some (Fin 0) ->
  row_add a b !! j = Some (Fin (x + 0)).
Proof.
  intros Ha Hb. unfold row_add. rewrite lookup_zip_with, Ha. simpl.
  rewrite Hb. reflexivity.
Qed.

(** C10.  In the single-token decode branch of [snapkv] and of
    [snapkv_prefill_wrong], whatever the retained fraction and the
    always-kept prefix of the layer, the extended mask is 0 at every key
    position at or behind the end of the persisted row, so the logit
    there is the bare attention score. *)
Theorem snapkv_decode_unmasks_appended
    (topk_selection : layer -> list (list Q) -> list (list ext) -> result (list (list ext)))
    (snapkv_mask_only : list (list Q) -> option (list ext))
    (L : layer) (score_row : list Q) (probs : list (list Q))
    (attention_mask : list (list ext)) (persisted : list ext)
    (hist : option eviction_state) (b : branch_out) (j : nat) (x : Q) :
  eval_llm_mode L = "snapkv" \/ eval_llm_mode L = "snapkv_prefill_wrong" ->
  0 < layer_idx L ->
  policy_branch topk_selection snapkv_mask_only L [score_row] probs attention_mask
    (Some persisted) hist = Ok b ->
  length persisted <= j ->
  score_row !! j = Some x ->
  exists extended_mask,
    extended_mask !! j = Some (Fin 0)
    /\ attn_weights b = [row_add (Fin <$> score_row) extended_mask]
    /\ attn_weights b !! 0 ≫= (.!! j) = Some (Fin (x + 0))
    /\ final_mask b = None.
Proof.
  intros Hmode Hl Hb Hj Hx.
  assert (Hk : j < length score_row) by (eapply lookup_lt_Some; exact Hx).
  apply Nat.ltb_lt in Hl.
  unfold policy_branch in Hb. rewrite Hl in Hb.
  destruct Hmode as [E | E]; rewrite E in Hb; cbn in Hb.
  - apply bind_ok_inv in Hb as (em & Hd & [= <-]).
    exists em. pose proof (snapkv_decode_appended _ _ _ _ Hd Hj Hk) as Hz.
    repeat split; try reflexivity; [exact Hz|]. cbn.
    apply row_add_lookup; [|exact Hz].
    rewrite list_lookup_fmap, Hx. reflexivity.
  - injection Hb as <-.
    eexists. pose proof (snapkv_wrong_decode_appended persisted _ (length score_row)
                           j eq_refl Hj Hk) as Hz.
    repeat split; try reflexivity; [exact Hz|]. cbn.
    apply row_add_lookup; [|exact Hz].
    rewrite list_lookup_fmap, Hx. reflexivity.
Qed.

Lemma snapkv_decode_unmasks_appended_witness :
  exists extended_mask,
    extended_mask !! 3 = Some (Fin 0)
    /\ attn_weights
         {| attn_weights := [[Fin (5 + 0); NegInf; Fin (7 + 0); Fin (8 + 0)]];
            final_mask := None; snapkv_cache := Some [Fin 0; NegInf; Fin 0];
            h2o_history := None |}
       = [row_add (Fin <$> [5; 6; 7; 8]%Q) extended_mask]
    /\ [[Fin (5 + 0); NegInf; Fin (7 + 0); Fin (8 + 0)]] !! 0 ≫= (.!! 3)
       = Some (Fin (8 + 0))
    /\ @None (list (list ext)) = None.
Proof.
  apply (snapkv_decode_unmasks_appended no_topk no_snapkv_mask
           (example_layer 1 "snapkv" (1 # 2) 1) [5; 6; 7; 8]%Q []
           [] [Fin 0; NegInf; Fin 0] None
           {| attn_weights := [[Fin (5 + 0); NegInf; Fin (7 + 0); Fin (8 + 0)]];
              final_mask := None; snapkv_cache := Some [Fin 0; NegInf; Fin 0];
              h2o_history := None |} 3 8%Q).
  - left. reflexivity.
  - simpl. lia.
  - reflexivity.
  - simpl. lia.
  - reflexivity.
Defined.

(** ** Layer 0 *)

Section LayerZero.
Variable topk_selection :
  layer -> list (list Q) -> list (list ext) -> result (list (list ext)).
Variable snapkv_mask_only : list (list Q) -> option (list ext).

Lemma policy_branch_layer0 (L : layer) (scores probs : list (list Q))
    (attention_mask : list (list ext)) (cache : option (list ext))
    (hist : option eviction_state) :
  layer_idx L = 0 ->
  accepted_eval_mode (eval_llm_mode L) = true ->
  policy_branch topk_selection snapkv_mask_only L scores probs attention_mask
    cache hist = Ok (dense_out scores cache hist).
Proof.
  intros Hl. unfold accepted_eval_mode, policy_branch. rewrite Hl.
  cbn [existsb Nat.ltb Nat.leb].
  repeat match goal with
         | |- context [String.eqb ?a ?b] =>
             destruct (String.eqb a b); cbn [orb]; try (intros _; reflexivity)
         end.
  all: destruct (PyStr.contains "oracle" (eval_llm_mode L)); cbn [orb];
    intros Hf; first [reflexivity | discriminate Hf].
Qed.

Lemma policy_branch_dense (L : layer) (scores probs : list (list Q))
    (attention_mask : list (list ext)) (cache : option (list ext))
    (hist : option eviction_state) :
  policy_branch topk_selection snapkv_mask_only (with_eval_mode L "dense")
    scores probs attention_mask cache hist = Ok (dense_out scores cache hist).
Proof. reflexivity. Qed.

(** What [forward] returns once the dispatch has produced [b]. *)
Lemma forward_ok_inv (L : layer) (cache : option (list ext))
    (past_key_value : cache_arg) (use_cache : bool)
    (attention_mask : option (list (list ext))) (scores probs : list (list Q))
    (out : forward_out) :
  forward topk_selection snapkv_mask_only L cache past_key_value use_cache
    attention_mask scores probs = Ok out ->
  exists hist b,
    policy_branch topk_selection snapkv_mask_only L scores probs
      (default (causal_mask (length scores) (length (default [] (head scores))))
               attention_mask) cache hist = Ok b
    /\ logits out = (if negb (length scores =? 1)
                     then matrix_add (attn_weights b)
                            (default (causal_mask (length scores)
                                        (length (default [] (head scores))))
                                     attention_mask)
                     else attn_weights b)
    /\ selection_mask out = final_mask b.
Proof.
  unfold forward. intros H.
  apply bind_ok_inv in H as (p & _ & H).
  apply bind_ok_inv in H as (p' & _ & H).
  destruct (group_factor L =? 0); [discriminate|].
  destruct (negb (head_dim L mod group_factor L =? 0)); [discriminate|].
  apply bind_ok_inv in H as (b & Hb & [= <-]).
  eexists _, b. split; [exact Hb|]. split; reflexivity.
Qed.
End LayerZero.

(** C8.  On layer 0 every policy the dispatch accepts leaves the scores
    untouched: [forward] applies no selection mask, and its logits are
    those of the [dense] policy, the attention scores plus the causal
    (or supplied) attention mask, which line 702 adds unless a single
    token is decoded. *)
Theorem layer0_is_dense
    (topk_selection : layer -> list (list Q) -> list (list ext) -> result (list (list ext)))
    (snapkv_mask_only : list (list Q) -> option (list ext))
    (L : layer) (cache : option (list ext)) (past_key_value : cache_arg)
    (use_cache : bool) (attention_mask : option (list (list ext)))
    (scores probs : list (list Q)) (out : forward_out) :
  layer_idx L = 0 ->
  forward topk_selection snapkv_mask_only L cache past_key_value use_cache
    attention_mask scores probs = Ok out ->
  selection_mask out = None
  /\ logits out = dense_logits attention_mask scores
  /\ exists out_dense,
       forward topk_selection snapkv_mask_only (with_eval_mode L "dense") cache
         past_key_value use_cache attention_mask scores probs = Ok out_dense
       /\ logits out_dense = logits out
       /\ selection_mask out_dense = None.
Proof.
  intros Hl H.
  assert (Hacc : accepted_eval_mode (eval_llm_mode L) = true).
  { destruct (accepted_eval_mode (eval_llm_mode L)) eqn:E; [reflexivity|].
    destruct (forward_unknown topk_selection snapkv_mask_only L cache past_key_value
                use_cache attention_mask scores probs E) as [e He].
    congruence. }
  pose proof H as H0.
  apply forward_ok_inv in H0 as (hist & b & Hb & Hlog & Hsel).
  rewrite policy_branch_layer0 in Hb by assumption. injection Hb as <-.
  split; [exact Hsel|]. split; [exact Hlog|].
  unfold forward in *.
  destruct (normalize_cache past_key_value) as [p|e]; [|discriminate].
  cbn [bind] in *.
  match type of H with
  | bind ?r _ = _ => destruct r as [p'|e]; [|discriminate]
  end.
  cbn [bind with_eval_mode group_factor head_dim eval_llm_mode] in *.
  destruct (group_factor L =? 0); [discriminate|].
  destruct (negb (head_dim L mod group_factor L =? 0)); [discriminate|].
  rewrite policy_branch_layer0 in H by assumption.
  rewrite policy_branch_dense. cbn [bind] in *.
  injection H as <-. eexists. split; [reflexivity|]. split; reflexivity.
Qed.

Lemma layer0_is_dense_witness :
  selection_mask
    {| logits := [[Fin (1 + 0); NegInf]; [Fin (3 + 0); Fin (4 + 0)]];
       selection_mask := None; snapkv_cache_after := None;
       past_key_value_after := Baseline {| seq_length := 2; h2o_importance := None |} |}
  = None
  /\ [[Fin (1 + 0); NegInf]; [Fin (3 + 0); Fin (4 + 0)]]
     = dense_logits None [[1; 2]; [3; 4]]%Q
  /\ exists out_dense,
       forward no_topk no_snapkv_mask
         (with_eval_mode (example_layer 0 "h2o_true" (1 # 2) 1) "dense") None
         (Baseline fresh_baseline) true None [[1; 2]; [3; 4]]%Q [] = Ok out_dense
       /\ logits out_dense = [[Fin (1 + 0); NegInf]; [Fin (3 + 0); Fin (4 + 0)]]
       /\ selection_mask out_dense = None.
Proof.
  apply (layer0_is_dense no_topk no_snapkv_mask (example_layer 0 "h2o_true" (1 # 2) 1)
           None (Baseline fresh_baseline) true None [[1; 2]; [3; 4]]%Q []
           {| logits := [[Fin (1 + 0); NegInf]; [Fin (3 + 0); Fin (4 + 0)]];
              selection_mask := None; snapkv_cache_after := None;
              past_key_value_after :=
                Baseline {| seq_length := 2; h2o_importance := None |} |}).
  - reflexivity.
  - reflexivity.
Defined.

(** ** The eviction loop *)

Lemma for_each_app {S : Type} (body : S -> nat -> result S) (l1 l2 : list nat) (acc : S) :
  for_each body (l1 ++ l2) acc = (acc' <-- for_each body l1 acc ;; for_each body l2 acc').
Proof.
  revert acc. induction l1 as [|i l1 IH]; intros acc; simpl; [reflexivity|].
  destruct (body acc i) as [acc'|e]; simpl; [apply IH | reflexivity].
Qed.

Lemma for_each_snoc {S : Type} (body : S -> nat -> result S) (n : nat) (acc : S) :
  for_each body (seq 1 (Datatypes.S n)) acc
  = (acc' <-- for_each body (seq 1 n) acc ;; body acc' (Datatypes.S n)).
Proof.
  rewrite seq_S, for_each_app. simpl.
  destruct (for_each body (seq 1 n) acc) as [acc'|e]; simpl; [|reflexivity].
  destruct (body acc' (Datatypes.S n)); reflexivity.
Qed.

(** [torch.min]: the value sits at the returned index, nothing in the
    row is smaller, and everything before the index is strictly larger. *)
Lemma min_with_index_spec (l : list Q) (m : Q) (j : nat) :
  min_with_index l = Some (m, j) ->
  l !! j = Some m
  /\ (forall k x, l !! k = Some x -> (m <= x)%Q)
  /\ (forall k x, k < j -> l !! k = Some x -> (m < x)%Q).
Proof.
  revert m j. induction l as [|x l IH]; intros m j; simpl; [discriminate|].
  destruct (min_with_index l) as [[m' j']|] eqn:E.
  - destruct (IH m' j' eq_refl) as (Hj & Hle & Hlt).
    destruct (Qle_bool x m') eqn:Hx; intros [= <- <-].
    + apply Qle_bool_iff in Hx. repeat split.
      * intros [|k] y; simpl; intros Hy.
        -- injection Hy as <-. apply Qle_refl.
        -- eapply Qle_trans; [exact Hx | eapply Hle; exact Hy].
      * intros k y Hk. lia.
    + assert (Hx' : (m' < x)%Q).
      { apply Qnot_le_lt. intros Hc. apply Qle_bool_iff in Hc. congruence. }
      repeat split; [exact Hj | |].
      * intros [|k] y; simpl; intros Hy.
        -- injection Hy as <-. apply Qlt_le_weak, Hx'.
        -- eapply Hle; exact Hy.
      * intros [|k] y Hk; simpl; intros Hy.
        -- injection Hy as <-. exact Hx'.
        -- eapply Hlt; [|exact Hy]. lia.
  - destruct l; [|simpl in E; destruct (min_with_index l) as [[? ?]|];
                  [destruct (Qle_bool q _)|]; discriminate].
    intros [= <- <-]. repeat split.
    + intros [|k] y; simpl; [intros [= <-]; apply Qle_refl | discriminate].
    + intros k y Hk. lia.
Qed.

Lemma min_with_index_some (l : list Q) : l <> [] -> is_Some (min_with_index l).
Proof.
  destruct l as [|x l]; [congruence|]. intros _. simpl.
  destruct (min_with_index l) as [[m j]|]; [destruct (Qle_bool x m)|]; eauto.
Qed.

Lemma gather_spec (imp : list Q) (idx : list nat) (vs : list Q) :
  gather imp idx = Ok vs -> Forall2 (fun t v => imp !! t = Some v) idx vs.
Proof.
  revert vs. induction idx as [|t idx IH]; intros vs; simpl.
  - intros [= <-]. constructor.
  - destruct (imp !! t) as [v|] eqn:E; [|discriminate].
    intros H. apply bind_ok_inv in H as (vs' & Hg & [= <-]).
    constructor; [exact E | apply IH, Hg].
Qed.

Lemma gather_total (imp : list Q) (idx : list nat) :
  Forall (fun t => t < length imp) idx -> exists vs, gather imp idx = Ok vs.
Proof.
  induction 1 as [|t idx Ht _ [vs IH]]; simpl; [eauto|].
  destruct (lookup_lt_is_Some_2 imp t Ht) as [v ->]. rewrite IH. simpl. eauto.
Qed.

Lemma evict_step_outcome (budget : Z) (imp : list Q) (i : nat) (st st' : eviction_state) :
  evict_step budget imp i st = Ok st' -> step_outcome budget imp i st st'.
Proof.
  unfold evict_step, set_item, torch_min, get_item.
  destruct (Z.ltb_spec (Z.of_nat (active_counts st)) budget) as [Hlt|Hge].
  - destruct (Nat.ltb_spec (active_counts st) (length (active_tokens st))) as [Hl|Hl];
      [|discriminate].
    simpl. intros [= <-]. apply Inserted; auto.
  - intros H. apply bind_ok_inv in H as (row_imps & Hg & H).
    destruct (min_with_index row_imps) as [[m pos]|] eqn:Hm; [|discriminate].
    simpl in H. destruct (imp !! i) as [new_imp|] eqn:Hn; [|discriminate].
    simpl in H. eapply AtCapacity; eauto.
    destruct (Qlt_le_dec m new_imp) as [Hc|Hc].
    + destruct (Nat.ltb_spec pos (length (active_tokens st))) as [Hl|Hl];
        [|discriminate].
      simpl in H. injection H as <-. left. auto.
    + injection H as <-. right. auto.
Qed.

Section LoopInvariants.
Variable s : Q.
Variable msi : nat.
Variable importance : nat -> list Q.
Variable max_budget : Z.
Variable kv_seq_len : nat.

Let after := state_after s msi importance max_budget kv_seq_len.
Let budget := step_budget s msi.

Lemma state_after_0 : after 0 = Ok (initial_state max_budget).
Proof. reflexivity. Qed.

Lemma state_after_S (n : nat) (st' : eviction_state) :
  after (S n) = Ok st' ->
  exists st, after n = Ok st
             /\ evict_step (budget (S n)) (importance (S n)) (S n) st = Ok st'.
Proof.
  unfold after, state_after. rewrite for_each_snoc. intros H.
  apply bind_ok_inv in H as (r' & H & [= <-]).
  apply bind_ok_inv in H as ([st rows] & H1 & H2).
  unfold loop_body in H2. cbn [fst snd] in H2.
  apply bind_ok_inv in H2 as (st' & Hstep & H2).
  apply bind_ok_inv in H2 as (r & _ & [= <-]).
  exists st. rewrite H1. split; [reflexivity | exact Hstep].
Qed.

Lemma state_after_prefix (n i : nat) (st : eviction_state) :
  after n = Ok st -> i <= n -> exists st_i, after i = Ok st_i.
Proof.
  revert st. induction n as [|n IH]; intros st H Hi.
  - assert (i = 0) as -> by lia. eauto.
  - destruct (decide (i = S n)) as [->|Hne]; [eauto|].
    apply state_after_S in H as (st0 & H0 & _). eapply IH; [exact H0 | lia].
Qed.

Lemma eviction_loop_state_after (q_len : nat) (r : eviction_state * list (list ext)) :
  eviction_loop s msi importance max_budget q_len kv_seq_len = Ok r ->
  after (q_len - 1) = Ok (fst r).
Proof.
  unfold eviction_loop, after, state_after.
  destruct ((q_len =? 0) || (kv_seq_len =? 0)); [discriminate|].
  intros ->. reflexivity.
Qed.

(** A step adds one token while below the budget and otherwise keeps
    the count, which then is at least the (positive) budget. *)
Lemma step_outcome_count (b : Z) (imp : list Q) (i : nat) (st st' : eviction_state) :
  step_outcome b imp i st st' ->
  (active_counts st' = S (active_counts st) /\ (Z.of_nat (S (active_counts st)) <= b)%Z)
  \/ (active_counts st' = active_counts st /\ (1 <= b <= Z.of_nat (active_counts st))%Z).
Proof.
  intros [Hlt _ -> | row_imps m new_imp pos Hge Hg Hm _ Hcase].
  - left. simpl. split; [reflexivity | lia].
  - right. split.
    + destruct Hcase as [(_ & _ & ->) | (_ & ->)]; reflexivity.
    + split; [|exact Hge].
      apply gather_spec, Forall2_length in Hg.
      destruct row_imps as [|x row_imps]; [discriminate|].
      rewrite length_take in Hg. simpl in Hg. lia.
Qed.

Lemma count_positive (n : nat) (st : eviction_state) :
  after n = Ok st -> 1 <= active_counts st.
Proof.
  revert st. induction n as [|n IH]; intros st H.
  - rewrite state_after_0 in H. injection H as <-. simpl. lia.
  - apply state_after_S in H as (st0 & H0 & Hstep).
    apply evict_step_outcome, step_outcome_count in Hstep. specialize (IH _ H0).
    lia.
Qed.

Hypothesis retained_nonneg : (0 <= s)%Q.

Lemma count_le_budget (n : nat) (st : eviction_state) :
  after (S n) = Ok st -> (Z.of_nat (active_counts st) <= budget (S n))%Z.
Proof.
  revert st. induction n as [|n IH]; intros st H.
  - apply state_after_S in H as (st0 & H0 & Hstep).
    rewrite state_after_0 in H0. injection H0 as <-.
    apply evict_step_outcome, step_outcome_count in Hstep.
    simpl in Hstep. lia.
  - apply state_after_S in H as (st0 & H0 & Hstep).
    specialize (IH _ H0).
    apply evict_step_outcome, step_outcome_count in Hstep.
    assert (budget (S n) <= budget (S (S n)))%Z.
    { apply budget_for_mono; [exact retained_nonneg | lia]. }
    lia.
Qed.

(** Before any step the count does not exceed that step's budget. *)
Lemma count_le_next_budget (n : nat) (st st' : eviction_state) :
  after n = Ok st -> after (S n) = Ok st' ->
  (Z.of_nat (active_counts st) <= budget (S n))%Z.
Proof.
  intros H H'. destruct n as [|n].
  - rewrite state_after_0 in H. injection H as <-.
    apply state_after_S in H' as (st0 & H0 & Hstep).
    rewrite state_after_0 in H0. injection H0 as <-.
    apply evict_step_outcome, step_outcome_count in Hstep. simpl in *. lia.
  - pose proof (count_le_budget _ _ H).
    assert (budget (S n) <= budget (S (S n)))%Z.
    { apply budget_for_mono; [exact retained_nonneg | lia]. }
    lia.
Qed.

Hypothesis retained_le_1 : (s <= 1)%Q.

Lemma budget_step (n : nat) : (budget_for s msi (S n) <= budget_for s msi n + 1)%Z.
Proof.
  unfold budget_for.
  assert (Hn : (0 <= inject_Z (Z.of_nat n))%Q).
  { change 0%Q with (inject_Z 0). rewrite <- Zle_Qle. lia. }
  assert (Hn' : (0 <= inject_Z (Z.of_nat (S n)))%Q).
  { change 0%Q with (inject_Z 0). rewrite <- Zle_Qle. lia. }
  rewrite !py_int_floor by (apply Qmult_le_0_compat; assumption).
  set (x := (inject_Z (Z.of_nat n) * s)%Q).
  set (y := (inject_Z (Z.of_nat (S n)) * s)%Q).
  assert (Hxy : (y <= x + 1)%Q).
  { subst x y. rewrite Nat2Z.inj_succ. unfold Z.succ. rewrite inject_Z_plus.
    rewrite Qmult_plus_distr_l. apply Qplus_le_r.
    change (inject_Z 1) with 1%Q. rewrite Qmult_1_l. exact retained_le_1. }
  assert (Hf : (Qfloor y < Qfloor x + 2)%Z).
  { rewrite Zlt_Qlt. eapply Qle_lt_trans; [apply Qfloor_le|].
    eapply Qle_lt_trans; [exact Hxy|].
    replace (Qfloor x + 2)%Z with ((Qfloor x + 1) + 1)%Z by lia.
    rewrite (inject_Z_plus (Qfloor x + 1) 1).
    apply Qplus_lt_le_compat; [apply Qlt_floor | apply Qle_refl]. }
  lia.
Qed.

(** Once the count has reached the budget it follows it. *)
Lemma count_stays_at_budget (n : nat) (st st' : eviction_state) :
  after (S n) = Ok st -> after (S (S n)) = Ok st' ->
  Z.of_nat (active_counts st) = budget (S n) ->
  Z.of_nat (active_counts st') = budget (S (S n)).
Proof.
  intros H H' Heq.
  pose proof (count_le_budget _ _ H') as Hle.
  apply state_after_S in H' as (st0 & H0 & Hstep).
  fold after in H. rewrite H in H0. injection H0 as <-.
  apply evict_step_outcome, step_outcome_count in Hstep.
  assert (budget (S (S n)) <= budget (S n) + 1)%Z.
  { unfold budget, step_budget. rewrite !Nat.add_1_r. apply budget_step. }
  assert (budget (S n) <= budget (S (S n)))%Z.
  { apply budget_for_mono; [exact retained_nonneg | lia]. }
  lia.
Qed.
End LoopInvariants.

(** C3.  Step [i] of the eviction loop of snapkv and h2o_true, for one
    (batch x head) row and any importance signal.  The active count
    never decreases, never exceeds the step budget, and once it has
    reached the budget it equals the budget of every later step.  Below
    the budget the new token is appended.  At the budget the count is
    kept and the token at [pos] carries the minimum importance of the
    active set; it is overwritten by the new token exactly when the new
    token's importance is strictly greater, and otherwise the state is
    unchanged (the new token is discarded). *)
Theorem eviction_loop_invariants (s : Q) (msi : nat) (importance : nat -> list Q)
    (max_budget : Z) (q_len kv_seq_len : nat)
    (r : eviction_state * list (list ext)) (n : nat) :
  (0 <= s)%Q -> (s <= 1)%Q ->
  eviction_loop s msi importance max_budget q_len kv_seq_len = Ok r ->
  S n < q_len ->
  let i := S n in
  let b := step_budget s msi i in
  let imp := importance i in
  exists st st',
    state_after s msi importance max_budget kv_seq_len n = Ok st
    /\ state_after s msi importance max_budget kv_seq_len i = Ok st'
    /\ active_counts st <= active_counts st'
    /\ (Z.of_nat (active_counts st') <= b)%Z
    /\ (1 <= n -> Z.of_nat (active_counts st) = step_budget s msi n ->
        Z.of_nat (active_counts st') = b)
    /\ ((Z.of_nat (active_counts st) < b)%Z
        /\ st' = {| active_tokens := <[active_counts st := i]> (active_tokens st);
                    active_counts := S (active_counts st) |}
        \/ Z.of_nat (active_counts st) = b
           /\ active_counts st' = active_counts st
           /\ exists (pos victim : nat) (min_val new_imp : Q),
                valid_tokens st !! pos = Some victim
                /\ imp !! victim = Some min_val
                /\ imp !! i = Some new_imp
                /\ (forall t, t ∈ valid_tokens st ->
                      exists v, imp !! t = Some v /\ (min_val <= v)%Q)
                /\ ((min_val < new_imp)%Q
                    /\ active_tokens st' = <[pos := i]> (active_tokens st)
                    \/ (new_imp <= min_val)%Q /\ st' = st)).
Proof.
  intros Hs0 Hs1 Hloop Hn i b imp.
  apply eviction_loop_state_after in Hloop.
  destruct (state_after_prefix _ _ _ _ _ _ i _ Hloop ltac:(lia)) as [st' Hst'].
  destruct (state_after_S _ _ _ _ _ _ _ Hst') as (st & Hst & Hstep).
  exists st, st'. split; [exact Hst|]. split; [exact Hst'|].
  pose proof (evict_step_outcome _ _ _ _ _ Hstep) as Hout.
  pose proof (step_outcome_count _ _ _ _ _ Hout) as Hcount.
  pose proof (count_le_budget _ _ _ _ _ Hs0 _ _ Hst') as Hle'.
  pose proof (count_le_next_budget _ _ _ _ _ Hs0 _ _ _ Hst Hst') as Hle.
  fold i b in Hle', Hle, Hout, Hcount.
  split; [lia|]. split; [exact Hle'|]. split.
  { intros Hn1 Heq. destruct n as [|m]; [lia|].
    eapply count_stays_at_budget; eauto. }
  destruct Hout as [Hlt _ -> | row_imps m new_imp pos Hge Hg Hm Hnew Hcase].
  - left. split; [exact Hlt | reflexivity].
  - right. assert (Heq : Z.of_nat (active_counts st) = b) by lia.
    split; [exact Heq|]. split; [lia|].
    assert (Hvalid : take (Z.to_nat b) (active_tokens st) = valid_tokens st).
    { unfold valid_tokens. f_equal. lia. }
    rewrite Hvalid in Hg. apply gather_spec in Hg.
    destruct (min_with_index_spec _ _ _ Hm) as (Hpos & Hmin & _).
    destruct (Forall2_lookup_r _ _ _ _ _ Hg Hpos) as (victim & Hv & Himp).
    exists pos, victim, m, new_imp.
    split; [exact Hv|]. split; [exact Himp|]. split; [exact Hnew|]. split.
    + intros t Ht. apply list_elem_of_lookup in Ht as [k Hk].
      destruct (Forall2_lookup_l _ _ _ _ _ Hg Hk) as (v & Hv' & Himp').
      exists v. split; [exact Himp' | eapply Hmin; exact Hv'].
    + destruct Hcase as [(Hc & _ & ->) | (Hc & ->)]; [left | right]; auto.
Qed.

Lemma eviction_loop_invariants_witness :
  exists st st',
    state_after (1 # 2) 2 (h2o_row_weights example_scores) 2 4 2 = Ok st
    /\ state_after (1 # 2) 2 (h2o_row_weights example_scores) 2 4 3 = Ok st'
    /\ active_counts st <= active_counts st'
    /\ (Z.of_nat (active_counts st') <= step_budget (1 # 2) 2 3)%Z.
Proof.
  destruct (eviction_loop_invariants (1 # 2) 2 (h2o_row_weights example_scores) 2 4 4
              ({| active_tokens := [2; 3]; active_counts := 2 |},
               [[Fin 0; NegInf; NegInf; NegInf]; [Fin 0; Fin 0; NegInf; NegInf];
                [NegInf; Fin 0; Fin 0; NegInf]; [NegInf; NegInf; Fin 0; Fin 0]]) 2)
    as (st & st' & H1 & H2 & H3 & H4 & _).
  - unfold Qle; simpl; lia.
  - unfold Qle; simpl; lia.
  - vm_compute. reflexivity.
  - lia.
  - exists st, st'. auto.
Defined.

(** ** Two prefill runs over a common prefix

    A prefill over [N] tokens and one over [N + 1] tokens allocate
    [active_tokens] of different widths and build rows of different
    lengths, but their loops agree on the active count and on the valid
    tokens for as long as both run. *)

Lemma take_insert_comm {A : Type} (l : list A) (n i : nat) (x : A) :
  take n (<[i := x]> l) = <[i := x]> (take n l).
Proof.
  rewrite take_insert. destruct (decide (i < n)) as [H|H]; [reflexivity|].
  symmetry. apply list_insert_ge. rewrite length_take. lia.
Qed.

Lemma take_S_insert {A : Type} (l : list A) (c : nat) (x : A) :
  c < length l -> take (S c) (<[c := x]> l) = take c l ++ [x].
Proof.
  intros H. rewrite (take_S_r _ _ x) by (apply list_lookup_insert_eq; exact H).
  rewrite take_insert_ge by lia. reflexivity.
Qed.

Lemma evict_step_sim (b : Z) (imp : list Q) (i : nat)
    (st1 st2 st1' st2' : eviction_state) :
  same_active st1 st2 ->
  evict_step b imp i st1 = Ok st1' ->
  evict_step b imp i st2 = Ok st2' ->
  same_active st1' st2'.
Proof.
  intros [Hc Hv] H1 H2. unfold valid_tokens in Hv.
  apply evict_step_outcome in H1. apply evict_step_outcome in H2.
  destruct H1 as [Hlt1 Hl1 -> | r1 m1 n1 p1 Hge1 Hg1 Hm1 Hn1 Hcase1];
    destruct H2 as [Hlt2 Hl2 -> | r2 m2 n2 p2 Hge2 Hg2 Hm2 Hn2 Hcase2];
    try lia.
  - split; simpl; [congruence|]. unfold valid_tokens. simpl.
    rewrite !take_S_insert by assumption. rewrite Hv. reflexivity.
  - assert (Htake : take (Z.to_nat b) (active_tokens st1)
                    = take (Z.to_nat b) (active_tokens st2)).
    { replace (Z.to_nat b) with (Z.to_nat b `min` active_counts st1) by lia.
      rewrite <- !take_take. rewrite Hv, Hc. reflexivity. }
    rewrite Htake in Hg1. rewrite Hg1 in Hg2. injection Hg2 as <-.
    rewrite Hm1 in Hm2. injection Hm2 as <- <-.
    rewrite Hn1 in Hn2. injection Hn2 as <-.
    destruct Hcase1 as [(Hq1 & _ & ->) | (Hq1 & ->)];
      destruct Hcase2 as [(Hq2 & _ & ->) | (Hq2 & ->)].
    + split; simpl; [exact Hc|]. unfold valid_tokens. simpl.
      rewrite !take_insert_comm, Hv. reflexivity.
    + exfalso. eapply Qlt_not_le; eassumption.
    + exfalso. eapply Qlt_not_le; eassumption.
    + split; assumption.
Qed.

Lemma loop_sim (s : Q) (msi : nat) (importance : nat -> list Q) (kv1 kv2 : nat)
    (iters : list nat) (acc1 acc2 r1 r2 : eviction_state * list (list ext)) :
  same_active (fst acc1) (fst acc2) ->
  for_each (loop_body s msi importance kv1) iters acc1 = Ok r1 ->
  for_each (loop_body s msi importance kv2) iters acc2 = Ok r2 ->
  same_active (fst r1) (fst r2).
Proof.
  revert acc1 acc2. induction iters as [|i iters IH]; intros acc1 acc2 HR; simpl.
  - intros [= <-] [= <-]. exact HR.
  - intros H1 H2.
    apply bind_ok_inv in H1 as (a1 & Hb1 & H1).
    apply bind_ok_inv in H2 as (a2 & Hb2 & H2).
    eapply IH; [|exact H1|exact H2].
    unfold loop_body in Hb1, Hb2.
    apply bind_ok_inv in Hb1 as (st1' & Hs1 & Hb1).
    apply bind_ok_inv in Hb2 as (st2' & Hs2 & Hb2).
    apply bind_ok_inv in Hb1 as (row1 & _ & [= <-]).
    apply bind_ok_inv in Hb2 as (row2 & _ & [= <-]).
    simpl. eapply evict_step_sim; eauto.
Qed.

(** The width of [active_tokens] never changes, and a loop that got
    through a step has at least one slot. *)
Lemma evict_step_length (b : Z) (imp : list Q) (i : nat) (st st' : eviction_state) :
  evict_step b imp i st = Ok st' ->
  length (active_tokens st') = length (active_tokens st)
  /\ 1 <= length (active_tokens st).
Proof.
  intros H. apply evict_step_outcome in H.
  destruct H as [Hlt Hl -> | row_imps m new_imp pos Hge Hg Hm _ Hcase].
  - simpl. rewrite length_insert. lia.
  - split.
    + destruct Hcase as [(_ & _ & ->) | (_ & ->)]; simpl;
        [apply length_insert | reflexivity].
    + apply gather_spec, Forall2_length in Hg.
      destruct row_imps as [|x row_imps]; [discriminate|].
      rewrite length_take in Hg. simpl in Hg. lia.
Qed.

Lemma loop_first_slot (s : Q) (msi : nat) (importance : nat -> list Q) (kv : nat)
    (i : nat) (iters : list nat) (acc r : eviction_state * list (list ext)) :
  for_each (loop_body s msi importance kv) (i :: iters) acc = Ok r ->
  1 <= length (active_tokens (fst acc)).
Proof.
  simpl. intros H. apply bind_ok_inv in H as (a & Hb & _).
  unfold loop_body in Hb. apply bind_ok_inv in Hb as (st' & Hs & _).
  apply evict_step_length in Hs. lia.
Qed.

(** After at least one step the last row is the mask row of the final
    state. *)
Lemma loop_last_row (s : Q) (msi : nat) (importance : nat -> list Q) (kv : nat)
    (iters : list nat) (acc r : eviction_state * list (list ext)) :
  iters <> [] ->
  for_each (loop_body s msi importance kv) iters acc = Ok r ->
  exists row, mask_row kv (fst r) = Ok row /\ last (snd r) = Some row.
Proof.
  revert acc. induction iters as [|i iters IH]; intros acc Hne; [congruence|].
  simpl. intros H. apply bind_ok_inv in H as (a & Hb & H).
  destruct iters as [|i' iters].
  - simpl in H. injection H as <-.
    unfold loop_body in Hb. apply bind_ok_inv in Hb as (st' & _ & Hb).
    apply bind_ok_inv in Hb as (row & Hrow & [= <-]).
    exists row. simpl. split; [exact Hrow | apply last_snoc].
  - eapply IH; [congruence | exact H].
Qed.

Lemma length_force_prefix (msi : nat) (r : list ext) :
  length (force_prefix msi r) = length r.
Proof.
  unfold force_prefix. rewrite length_app, length_replicate, length_drop. lia.
Qed.

Lemma force_prefix_snoc (msi : nat) (r : list ext) :
  force_prefix msi (r ++ [Fin 0]) = force_prefix msi r ++ [Fin 0].
Proof.
  unfold force_prefix. rewrite length_app. simpl.
  destruct (Nat.le_gt_cases msi (length r)) as [H|H].
  - rewrite drop_app_le by exact H.
    replace (msi `min` (length r + 1)) with (msi `min` length r) by lia.
    rewrite app_assoc. reflexivity.
  - rewrite !drop_ge by (rewrite ?length_app; simpl; lia).
    replace (msi `min` (length r + 1)) with (S (length r)) by lia.
    replace (msi `min` length r) with (length r) by lia.
    rewrite replicate_S_end, !app_nil_r. reflexivity.
Qed.

Lemma force_prefix_lookup (msi : nat) (r : list ext) (c : nat) :
  c < msi -> c < length r -> force_prefix msi r !! c = Some (Fin 0).
Proof.
  intros Hc Hl. unfold force_prefix.
  rewrite lookup_app_l by (rewrite length_replicate; lia).
  apply lookup_replicate_2. lia.
Qed.

Lemma mask_row_length (kv : nat) (st : eviction_state) (row : list ext) :
  mask_row kv st = Ok row -> length row = kv.
Proof.
  unfold mask_row. destruct (forallb _ _); [|discriminate].
  intros [= <-]. rewrite length_fmap, length_seq. reflexivity.
Qed.

(** Appending the new token to the valid tokens appends a 0 to the row. *)
Lemma mask_row_snoc (n : nat) (st st' : eviction_state) (row row' : list ext) :
  valid_tokens st' = valid_tokens st ++ [n] ->
  mask_row n st = Ok row ->
  mask_row (S n) st' = Ok row' ->
  row' = row ++ [Fin 0].
Proof.
  unfold mask_row. intros Hv.
  destruct (forallb _ (valid_tokens st)); [|discriminate].
  destruct (forallb _ (valid_tokens st')); [|discriminate].
  intros H1 H2. apply Ok_inj in H1, H2. subst row row'.
  rewrite seq_S, fmap_app. simpl. f_equal.
  - apply list_fmap_ext. intros k c Hk.
    apply lookup_seq in Hk as [-> Hk]. simpl.
    rewrite Hv.
    assert (E : bool_decide (k ∈ valid_tokens st ++ [n])
                = bool_decide (k ∈ valid_tokens st)).
    { apply bool_decide_ext. rewrite elem_of_app, list_elem_of_singleton.
      split; [intros [H|H]; [exact H | lia] | auto]. }
    rewrite E. reflexivity.
  - rewrite bool_decide_true; [reflexivity|].
    rewrite Hv, elem_of_app, list_elem_of_singleton. auto.
Qed.

Lemma snapkv_prefill_inv (s : Q) (msi : nat) (importance : nat -> list Q)
    (q_len kv : nat) (rows : list (list ext)) (cache : list ext) :
  snapkv_prefill s msi importance q_len kv = Ok (rows, cache) ->
  exists st raw,
    for_each (loop_body s msi importance kv) (seq 1 (q_len - 1))
      (initial_state (budget_for s msi q_len),
       [ <[0 := Fin 0]> (replicate kv NegInf) ]) = Ok (st, raw)
    /\ rows = force_prefix msi <$> raw
    /\ last rows = Some cache.
Proof.
  unfold snapkv_prefill, incremental_prefill, eviction_loop. intros H.
  apply bind_ok_inv in H as ([rows0 st0] & H & Hlast).
  apply bind_ok_inv in H as ([st raw] & H & E). apply Ok_inj in E.
  destruct ((q_len =? 0) || (kv =? 0)); [discriminate|].
  cbn [fst snd] in *. injection E as <- <-.
  destruct (last (force_prefix msi <$> raw)) as [final_row|] eqn:El; [|discriminate].
  apply Ok_inj in Hlast. injection Hlast as <- <-.
  exists st, raw. auto.
Qed.

(** C1, as the code has it, for snapkv.  The decode step after a
    prefill over [N >= 2] tokens re-uses the persisted row and un-masks
    the new position; this is the final row of a direct prefill over
    [N + 1] tokens whenever that prefill finds the active count below
    the budget at its last step, so that token [N] is appended and
    nothing is evicted. *)
Theorem snapkv_decode_matches_prefill_on_insert (s : Q) (msi : nat)
    (importance : nat -> list Q) (m : nat)
    (rows rows' : list (list ext)) (cache cache' : list ext) (st : eviction_state) :
  let N := S (S m) in
  snapkv_prefill s msi importance N N = Ok (rows, cache) ->
  snapkv_prefill s msi importance (S N) (S N) = Ok (rows', cache') ->
  state_after s msi importance (budget_for s msi (S N)) (S N) (N - 1) = Ok st ->
  (Z.of_nat (active_counts st) < step_budget s msi N)%Z ->
  snapkv_decode (Some cache) (S N) = Ok cache'.
Proof.
  intros N HA HB Hst Hlt. subst N.
  apply snapkv_prefill_inv in HA as (stA & rawA & HA & -> & HlastA).
  apply snapkv_prefill_inv in HB as (stB' & rawB' & HB & -> & HlastB).
  change (S (S m) - 1) with (S m) in *.
  change (S (S (S m)) - 1) with (S (S m)) in HB.
  rewrite for_each_snoc in HB.
  apply bind_ok_inv in HB as ([stB rawB] & HB & Hlast_step).
  unfold state_after in Hst. rewrite HB in Hst. apply Ok_inj in Hst.
  cbn [fst] in Hst. subst st.
  (* the two loops agree after the common steps *)
  assert (Hsim : same_active stA stB).
  { change stA with (fst (stA, rawA)). change stB with (fst (stB, rawB)).
    eapply loop_sim; [|exact HA|exact HB].
    pose proof (loop_first_slot _ _ _ _ _ _ _ _ HA) as HlA.
    pose proof (loop_first_slot _ _ _ _ _ _ _ _ HB) as HlB.
    cbn [fst initial_state active_tokens] in HlA, HlB.
    rewrite length_replicate in HlA, HlB.
    split; [reflexivity|]. unfold valid_tokens, initial_state. cbn.
    rewrite !take_replicate. f_equal; lia. }
  (* the last step of the longer run appends token N *)
  unfold loop_body in Hlast_step. cbn [fst snd] in Hlast_step.
  apply bind_ok_inv in Hlast_step as (st' & Hstep & Hrow).
  apply bind_ok_inv in Hrow as (rowB & HrowB & E). apply Ok_inj in E.
  injection E as -> <-.
  apply evict_step_outcome in Hstep.
  destruct Hstep as [_ Hslot -> | ? ? ? ? Hge _ _ _ _]; [|lia].
  assert (Hne : seq 1 (S m) <> []) by (simpl; discriminate).
  destruct (loop_last_row _ _ _ _ _ _ _ Hne HA) as (rowA & HrowA & HlA).
  cbn [fst snd] in HrowA, HlA.
  rewrite fmap_last, HlA in HlastA. apply (inj Some) in HlastA. subst cache.
  rewrite fmap_last, last_snoc in HlastB. apply (inj Some) in HlastB. subst cache'.
  assert (HrowBA : rowB = rowA ++ [Fin 0]).
  { eapply mask_row_snoc; [|exact HrowA|exact HrowB].
    unfold valid_tokens. cbn [active_tokens active_counts].
    rewrite take_S_insert by exact Hslot.
    destruct Hsim as [Hc Hv]. unfold valid_tokens in Hv. rewrite Hv. reflexivity. }
  subst rowB. unfold snapkv_decode.
  rewrite length_force_prefix, (mask_row_length _ _ _ HrowA).
  destruct (Nat.leb_spec (S (S m)) (S (S (S m)))) as [_|Hc]; [|lia].
  replace (S (S (S m)) - S (S m)) with 1 by lia.
  rewrite force_prefix_snoc. reflexivity.
Qed.

Lemma snapkv_decode_matches_prefill_on_insert_witness :
  snapkv_decode (Some [Fin 0; NegInf; Fin 0]) 4 = Ok [Fin 0; NegInf; Fin 0; Fin 0].
Proof.
  apply (snapkv_decode_matches_prefill_on_insert (3 # 4) 1
           (snapkv_importance example_probs) 1
           [[Fin 0; NegInf; NegInf]; [Fin 0; NegInf; NegInf]; [Fin 0; NegInf; Fin 0]]
           [[Fin 0; NegInf; NegInf; NegInf]; [Fin 0; NegInf; NegInf; NegInf];
            [Fin 0; NegInf; Fin 0; NegInf]; [Fin 0; NegInf; Fin 0; Fin 0]]
           [Fin 0; NegInf; Fin 0] [Fin 0; NegInf; Fin 0; Fin 0]
           {| active_tokens := [0; 2; 0]; active_counts := 2 |}).
  - vm_compute. reflexivity.
  - vm_compute. reflexivity.
  - vm_compute. reflexivity.
  - vm_compute. reflexivity.
Defined.

(** C1 as stated fails for both policies.  With half of the tokens
    retained and a prefix of one token, the snapkv decode step after a
    two-token prefill un-masks the new position 2, which the direct
    three-token prefill discards.  With a prefix of two tokens, the
    h2o_true decode step after the four-token prefill masks the prefix
    positions 0 and 1, which the direct five-token prefill keeps. *)
Lemma decode_differs_from_direct_prefill :
  (exists rows rows',
     snapkv_prefill (1 # 2) 1 (snapkv_importance example_probs) 2 2
     = Ok (rows, [Fin 0; NegInf])
     /\ snapkv_decode (Some [Fin 0; NegInf]) 3 = Ok [Fin 0; NegInf; Fin 0]
     /\ snapkv_prefill (1 # 2) 1 (snapkv_importance example_probs) 3 3
        = Ok (rows', [Fin 0; NegInf; NegInf]))
  /\ (exists rows rows' st st' st'',
        h2o_prefill (1 # 2) 2 (h2o_row_weights example_scores) 4 4 = Ok (rows, st)
        /\ h2o_decode (1 # 2) 2 5 [9; 9; 9; 9; 0]%Q st
           = Ok ([NegInf; NegInf; Fin 0; Fin 0; NegInf], st')
        /\ h2o_prefill (1 # 2) 2 (h2o_row_weights example_scores5) 5 5 = Ok (rows', st'')
        /\ last rows' = Some [Fin 0; Fin 0; Fin 0; Fin 0; NegInf]).
Proof.
  split.
  - do 2 eexists. repeat split; vm_compute; reflexivity.
  - do 5 eexists. repeat split; vm_compute; reflexivity.
Qed.

(** ** The always-kept prefix *)

Lemma incremental_prefill_keeps_prefix (s : Q) (msi : nat) (importance : nat -> list Q)
    (max_budget : Z) (q_len kv : nat) (rows : list (list ext)) (st : eviction_state)
    (row : list ext) (c : nat) :
  incremental_prefill s msi importance max_budget q_len kv = Ok (rows, st) ->
  row ∈ rows -> c < msi -> c < length row ->
  row !! c = Some (Fin 0).
Proof.
  unfold incremental_prefill. intros H Hin Hc Hl.
  apply bind_ok_inv in H as (r & _ & E). apply Ok_inj in E. injection E as <- <-.
  apply list_elem_of_fmap in Hin as (raw & -> & _).
  rewrite length_force_prefix in Hl. apply force_prefix_lookup; assumption.
Qed.

(** The snapkv decode step inherits the prefix from the persisted row. *)
Lemma snapkv_decode_keeps_prefix (s : Q) (msi : nat) (importance : nat -> list Q)
    (q_len kv kv' : nat) (rows : list (list ext)) (cache row : list ext) (c : nat) :
  snapkv_prefill s msi importance q_len kv = Ok (rows, cache) ->
  snapkv_decode (Some cache) kv' = Ok row ->
  c < msi -> c < kv' ->
  row !! c = Some (Fin 0).
Proof.
  intros Hp Hd Hc Hk.
  destruct (Nat.lt_ge_cases c (length cache)) as [Hl|Hl].
  - unfold snapkv_prefill in Hp.
    apply bind_ok_inv in Hp as ([rows0 st] & Hp & Hlast). cbn [fst] in Hlast.
    destruct (last rows0) as [final_row|] eqn:El; [|discriminate].
    apply Ok_inj in Hlast. injection Hlast as <- <-.
    unfold snapkv_decode in Hd.
    destruct (length final_row <=? kv'); [|discriminate].
    apply Ok_inj in Hd. subst row. rewrite lookup_app_l by exact Hl.
    eapply incremental_prefill_keeps_prefix; eauto.
    apply last_Some in El as [l' ->]. apply elem_of_app. right.
    apply list_elem_of_singleton. reflexivity.
  - eapply snapkv_decode_appended; eauto.
Qed.

(** C2.  The h2o_true decode step lacks the prefix assignment that the
    prefill performs.  On a layer with [min_sparse_index = 2] retaining
    half of the tokens, a four-token prefill keeps positions 0 and 1 in
    every row, evicts both from the active set, and the following decode
    step over five keys masks them (and the new position 4 as well). *)
Theorem h2o_decode_masks_kept_prefix :
  let L := example_layer 1 "h2o_true" (1 # 2) 2 in
  let history := {| active_tokens := [2; 3]; active_counts := 2 |} in
  forward no_topk no_snapkv_mask L None (Baseline fresh_baseline) true None
    example_scores []
  = Ok {| logits := [[Fin 0; NegInf; NegInf; NegInf]; [Fin 0; Fin 0; NegInf; NegInf];
                     [Fin 0; Fin 5; Fin 10; NegInf]; [Fin 0; Fin 1; Fin 2; Fin 3]];
          selection_mask :=
            Some [[Fin 0; Fin 0; NegInf; NegInf]; [Fin 0; Fin 0; NegInf; NegInf];
                  [Fin 0; Fin 0; Fin 0; NegInf]; [Fin 0; Fin 0; Fin 0; Fin 0]];
          snapkv_cache_after := None;
          past_key_value_after :=
            Baseline {| seq_length := 4; h2o_importance := Some history |} |}
  /\ forward no_topk no_snapkv_mask L None
       (Baseline {| seq_length := 4; h2o_importance := Some history |}) true None
       [[9; 9; 9; 9; 0]]%Q []
     = Ok {| logits := [[NegInf; NegInf; Fin 9; Fin 9; NegInf]];
             selection_mask := Some [[NegInf; NegInf; Fin 0; Fin 0; NegInf]];
             snapkv_cache_after := None;
             past_key_value_after :=
               Baseline {| seq_length := 5;
                           h2o_importance :=
                             Some {| active_tokens := [2; 3; 0];
                                     active_counts := 2 |} |} |}.
Proof. split; vm_compute; reflexivity. Qed.

(** ** The loop completes

    With a prefix of at least one token, importance rows of the length
    the code builds ([i + 1] at step [i]) and no more queries than
    keys, none of the indexing operations of the loop can raise. *)

Lemma min_with_index_lt (l : list Q) (m : Q) (j : nat) :
  min_with_index l = Some (m, j) -> j < length l.
Proof.
  intros H. apply min_with_index_spec in H as (H & _). eapply lookup_lt_Some, H.
Qed.

Lemma evict_step_total (b : Z) (imp : list Q) (i : nat) (st : eviction_state) :
  (1 <= b <= Z.of_nat (length (active_tokens st)))%Z ->
  length imp = S i ->
  Forall (fun t => t < i) (active_tokens st) ->
  exists st', evict_step b imp i st = Ok st'
              /\ length (active_tokens st') = length (active_tokens st)
              /\ Forall (fun t => t < S i) (active_tokens st').
Proof.
  intros Hb Hl Hall. unfold evict_step, set_item, torch_min, get_item.
  destruct (Z.ltb_spec (Z.of_nat (active_counts st)) b) as [Hlt|Hge].
  - destruct (Nat.ltb_spec (active_counts st) (length (active_tokens st))) as [Hc|Hc];
      [|lia].
    eexists. split; [reflexivity|]. cbn. split; [apply length_insert|].
    apply Forall_insert; [|lia]. eapply Forall_impl; [exact Hall|]. cbn. lia.
  - destruct (gather_total imp (take (Z.to_nat b) (active_tokens st))) as [vs Hg].
    { apply Forall_take. eapply Forall_impl; [exact Hall|]. cbn. lia. }
    rewrite Hg. cbn [bind].
    assert (Hvs : length vs = Z.to_nat b).
    { apply gather_spec, Forall2_length in Hg. rewrite length_take in Hg. lia. }
    destruct (min_with_index_some vs) as [[m pos] Hm].
    { destruct vs; [simpl in Hvs; lia | discriminate]. }
    rewrite Hm. cbn [bind].
    destruct (lookup_lt_is_Some_2 imp i ltac:(lia)) as [new_imp ->]. cbn [bind].
    destruct (Qlt_le_dec (fst (m, pos)) new_imp).
    + apply min_with_index_lt in Hm. cbn [snd].
      destruct (Nat.ltb_spec pos (length (active_tokens st))) as [Hc|Hc]; [|lia].
      eexists. split; [reflexivity|]. cbn. split; [apply length_insert|].
      apply Forall_insert; [|lia]. eapply Forall_impl; [exact Hall|]. cbn. lia.
    + eexists. split; [reflexivity|]. split; [reflexivity|].
      eapply Forall_impl; [exact Hall|]. cbn. lia.
Qed.

Lemma mask_row_total (kv : nat) (st : eviction_state) :
  Forall (fun t => t < kv) (active_tokens st) -> exists row, mask_row kv st = Ok row.
Proof.
  intros H. unfold mask_row.
  assert (E : forallb (fun t => t <? kv) (valid_tokens st) = true).
  { apply forallb_forall. intros t Ht. apply Nat.ltb_lt.
    apply list_elem_of_In in Ht. unfold valid_tokens in Ht.
    apply elem_of_take in Ht as (k & Hk & _).
    eapply Forall_lookup_1 in H; eauto. }
  rewrite E. eauto.
Qed.

Lemma eviction_loop_runs (s : Q) (msi : nat) (importance : nat -> list Q)
    (tokens q_len kv : nat) :
  (0 <= s)%Q -> 1 <= msi -> 1 <= q_len -> q_len <= kv -> q_len <= tokens ->
  (forall i, i < q_len -> length (importance i) = S i) ->
  exists r, eviction_loop s msi importance (budget_for s msi tokens) q_len kv = Ok r.
Proof.
  intros Hs Hmsi Hq Hkv Htok Himp. unfold eviction_loop.
  destruct (Nat.eqb_spec q_len 0) as [?|_]; [lia|].
  destruct (Nat.eqb_spec kv 0) as [?|_]; [lia|]. cbn [orb].
  assert (H : forall n, n < q_len ->
            exists st rows,
              for_each (loop_body s msi importance kv) (seq 1 n)
                (initial_state (budget_for s msi tokens),
                 [ <[0 := Fin 0]> (replicate kv NegInf) ]) = Ok (st, rows)
              /\ length (active_tokens st) = Z.to_nat (budget_for s msi tokens)
              /\ Forall (fun t => t < S n) (active_tokens st)).
  { induction n as [|n IH]; intros Hn.
    - do 2 eexists. split; [reflexivity|]. cbn. rewrite length_replicate.
      split; [reflexivity|]. apply Forall_replicate. lia.
    - destruct IH as (st & rows & Hrun & Hlen & Hall); [lia|].
      destruct (evict_step_total (step_budget s msi (S n)) (importance (S n)) (S n) st)
        as (st' & Hstep & Hlen' & Hall'); [| apply Himp; lia | exact Hall |].
      { assert (step_budget s msi (S n) <= budget_for s msi tokens)%Z.
        { apply budget_for_mono; [exact Hs | lia]. }
        assert (Z.of_nat msi <= step_budget s msi (S n))%Z.
        { unfold step_budget, budget_for. lia. }
        lia. }
      destruct (mask_row_total kv st') as [row Hrow].
      { eapply Forall_impl; [exact Hall'|]. cbn. lia. }
      exists st', (rows ++ [row]). rewrite for_each_snoc, Hrun. cbn [bind].
      unfold loop_body. cbn [fst snd]. rewrite Hstep. cbn [bind]. rewrite Hrow.
      split; [reflexivity|]. split; [lia | exact Hall']. }
  destruct (H (q_len - 1)) as (st & rows & Hrun & _); [lia|]. eauto.
Qed.

Lemma eviction_loop_total (s : Q) (msi : nat) (importance : nat -> list Q)
    (tokens q_len kv : nat) :
  (0 <= s)%Q -> 1 <= msi -> 1 <= q_len -> q_len <= kv -> q_len <= tokens ->
  (forall i, length (importance i) = S i) ->
  exists r, eviction_loop s msi importance (budget_for s msi tokens) q_len kv = Ok r.
Proof.
  intros Hs Hmsi Hq Hkv Htok Himp. apply eviction_loop_runs; auto.
Qed.

(** ** Rows of the prefill selection mask *)

Lemma force_prefix_lookup_ge (msi : nat) (r : list ext) (c : nat) :
  msi <= c -> force_prefix msi r !! c = r !! c.
Proof.
  intros Hc. unfold force_prefix.
  rewrite lookup_app_r; rewrite length_replicate; [|lia].
  rewrite lookup_drop.
  destruct (Nat.le_gt_cases msi (length r)) as [H|H].
  - f_equal. lia.
  - rewrite !lookup_ge_None_2 by lia. reflexivity.
Qed.

Lemma mask_row_lookup (kv : nat) (st : eviction_state) (row : list ext) (c : nat) :
  mask_row kv st = Ok row ->
  row !! c = Some (Fin 0) <-> c < kv /\ c ∈ valid_tokens st.
Proof.
  unfold mask_row. destruct (forallb _ _); [|discriminate].
  intros H. apply Ok_inj in H. subst row. rewrite list_lookup_fmap. split.
  - intros H. destruct (seq 0 kv !! c) as [c'|] eqn:E; [|discriminate].
    apply lookup_seq in E as [-> Hc]. simpl in H.
    destruct (bool_decide_reflect (c ∈ valid_tokens st)); [auto | discriminate].
  - intros [Hc Hin]. rewrite lookup_seq_lt by exact Hc. simpl.
    rewrite bool_decide_true by exact Hin. reflexivity.
Qed.

Lemma mask_row_valid_lt (kv : nat) (st : eviction_state) (row : list ext) (t : nat) :
  mask_row kv st = Ok row -> t ∈ valid_tokens st -> t < kv.
Proof.
  unfold mask_row. destruct (forallb _ _) eqn:E; [|discriminate]. intros _ Ht.
  rewrite forallb_forall in E. apply Nat.ltb_lt, E, list_elem_of_In, Ht.
Qed.

Lemma attendable_app (a b : list ext) : attendable (a ++ b) = attendable a + attendable b.
Proof. induction a as [|x a IH]; simpl; [reflexivity | rewrite IH; lia]. Qed.

Lemma attendable_le_length (r : list ext) : attendable r <= length r.
Proof. induction r as [|x r IH]; simpl; [lia | destruct (is_neg_inf x); lia]. Qed.

Lemma attendable_drop (n : nat) (r : list ext) : attendable (drop n r) <= attendable r.
Proof.
  rewrite <- (take_drop n r) at 2. rewrite attendable_app. lia.
Qed.

Lemma attendable_force_prefix (msi : nat) (r : list ext) :
  attendable (force_prefix msi r) <= msi + attendable r.
Proof.
  unfold force_prefix. rewrite attendable_app.
  pose proof (attendable_le_length (replicate (msi `min` length r) (Fin 0))) as H1.
  rewrite length_replicate in H1.
  pose proof (attendable_drop msi r). lia.
Qed.

(** Among distinct candidates, at most [length V] are members of [V]. *)
Lemma attendable_members_skip (v : nat) (V l : list nat) :
  v ∉ l ->
  attendable ((fun c => if bool_decide (c ∈ v :: V) then Fin 0 else NegInf) <$> l)
  = attendable ((fun c => if bool_decide (c ∈ V) then Fin 0 else NegInf) <$> l).
Proof.
  induction l as [|c l IH]; intros Hv; [reflexivity|].
  rewrite !fmap_cons. cbn [attendable].
  assert (E : bool_decide (c ∈ v :: V) = bool_decide (c ∈ V)).
  { apply bool_decide_ext. rewrite elem_of_cons. split; [|auto].
    intros [->|H]; [|exact H]. exfalso. apply Hv, list_elem_of_here. }
  rewrite E, IH; [reflexivity|].
  intros H. apply Hv, list_elem_of_further, H.
Qed.

Lemma attendable_members_cons (v : nat) (V l : list nat) :
  NoDup l ->
  attendable ((fun c => if bool_decide (c ∈ v :: V) then Fin 0 else NegInf) <$> l)
  <= 1 + attendable ((fun c => if bool_decide (c ∈ V) then Fin 0 else NegInf) <$> l).
Proof.
  induction 1 as [|c l Hc Hnd IH]; [simpl; lia|].
  rewrite !fmap_cons. cbn [attendable].
  destruct (decide (c = v)) as [->|Hne].
  - rewrite attendable_members_skip by exact Hc.
    destruct (bool_decide (v ∈ v :: V)), (bool_decide (v ∈ V)); simpl; lia.
  - assert (E : bool_decide (c ∈ v :: V) = bool_decide (c ∈ V)).
    { apply bool_decide_ext. rewrite elem_of_cons. split; [|auto].
      intros [->|H]; [contradiction | exact H]. }
    rewrite E. lia.
Qed.

Lemma attendable_members (V l : list nat) :
  NoDup l ->
  attendable ((fun c => if bool_decide (c ∈ V) then Fin 0 else NegInf) <$> l)
  <= length V.
Proof.
  intros Hnd. induction V as [|v V IH].
  - clear Hnd. induction l as [|c l IHl]; [simpl; lia|].
    rewrite fmap_cons. cbn [attendable].
    rewrite bool_decide_false by apply not_elem_of_nil. exact IHl.
  - pose proof (attendable_members_cons v V l Hnd). simpl. lia.
Qed.

Lemma mask_row_attendable (kv : nat) (st : eviction_state) (row : list ext) :
  mask_row kv st = Ok row -> attendable row <= active_counts st.
Proof.
  unfold mask_row. destruct (forallb _ _); [|discriminate].
  intros H. apply Ok_inj in H. subst row.
  etransitivity; [apply attendable_members, NoDup_seq|].
  unfold valid_tokens. rewrite length_take. lia.
Qed.

Lemma attendable_row0 (kv : nat) :
  attendable (<[0 := Fin 0]> (replicate kv NegInf)) <= 1.
Proof.
  destruct kv as [|k]; simpl; [lia|].
  assert (attendable (replicate k NegInf) = 0) as ->; [|lia].
  induction k as [|k IH]; simpl; [reflexivity | exact IH].
Qed.

Lemma row0_lookup (kv c : nat) :
  <[0 := Fin 0]> (replicate kv NegInf) !! c = Some (Fin 0) <-> c = 0 /\ 1 <= kv.
Proof.
  destruct kv as [|k]; simpl.
  - split; [destruct c; discriminate | lia].
  - destruct c as [|c]; simpl; [split; [lia | reflexivity]|].
    split; [|lia]. intros H. apply lookup_replicate_1 in H as [H _]. discriminate.
Qed.

(** What the loop has established after the steps [1..n]: one row per
    query position so far, each of them un-masking only tokens already
    seen, at least one of them, and no more than the active count of
    its step. *)
Lemma loop_rows_inv (s : Q) (msi : nat) (importance : nat -> list Q) (M : Z)
    (kv n : nat) (st : eviction_state) (rows : list (list ext)) :
  1 <= kv ->
  for_each (loop_body s msi importance kv) (seq 1 n)
    (initial_state M, [ <[0 := Fin 0]> (replicate kv NegInf) ]) = Ok (st, rows) ->
  length rows = S n
  /\ Forall (fun t => t <= n) (active_tokens st)
  /\ 1 <= active_counts st
  /\ forall i row, rows !! i = Some row ->
       length row = kv
       /\ (forall c, row !! c = Some (Fin 0) -> c <= i)
       /\ (exists c, c <= i /\ row !! c = Some (Fin 0))
       /\ exists st_i, state_after s msi importance M kv i = Ok st_i
                       /\ attendable row <= active_counts st_i.
Proof.
  intros Hkv. revert st rows. induction n as [|n IH]; intros st rows H.
  - apply Ok_inj in H. injection H as <- <-. cbn [initial_state active_tokens active_counts].
    split; [reflexivity|]. split; [apply Forall_replicate; lia|]. split; [lia|].
    intros [|i] row Hrow; [|discriminate]. apply (inj Some) in Hrow. subst row.
    split; [rewrite length_insert, length_replicate; reflexivity|].
    split; [intros c Hc; apply row0_lookup in Hc; lia|].
    split; [exists 0; split; [lia | apply row0_lookup; lia]|].
    exists (initial_state M). split; [reflexivity | apply attendable_row0].
  - rewrite for_each_snoc in H.
    apply bind_ok_inv in H as ([st0 rows0] & Hrun & Hbody).
    destruct (IH _ _ Hrun) as (Hlen & Hall & Hcount & Hrows).
    unfold loop_body in Hbody. cbn [fst snd] in Hbody.
    apply bind_ok_inv in Hbody as (st' & Hstep & Hbody).
    apply bind_ok_inv in Hbody as (row' & Hrow' & E). apply Ok_inj in E.
    injection E as <- <-.
    pose proof (evict_step_length _ _ _ _ _ Hstep) as [Hl' Hl1].
    pose proof (step_outcome_count _ _ _ _ _ (evict_step_outcome _ _ _ _ _ Hstep))
      as Hc'.
    assert (Hall' : Forall (fun t => t <= S n) (active_tokens st')).
    { apply evict_step_outcome in Hstep.
      assert (Hw : Forall (fun t => t <= S n) (active_tokens st0)).
      { eapply Forall_impl; [exact Hall|]. cbn. lia. }
      destruct Hstep as [_ _ -> | ? ? ? ? _ _ _ _ [(_ & _ & ->) | (_ & ->)]];
        cbn [active_tokens]; try exact Hw; apply Forall_insert; auto. }
    split; [rewrite length_app, Hlen; simpl; lia|].
    split; [exact Hall'|]. split; [lia|].
    intros i row Hrow.
    destruct (Nat.lt_ge_cases i (length rows0)) as [Hi|Hi].
    { rewrite lookup_app_l in Hrow by exact Hi. apply Hrows, Hrow. }
    rewrite lookup_app_r in Hrow by exact Hi.
    destruct (i - length rows0) as [|k] eqn:Ek; [|discriminate].
    apply (inj Some) in Hrow. subst row'.
    assert (i = S n) as -> by lia.
    assert (Hsub : forall t, t ∈ valid_tokens st' -> t <= S n).
    { intros t Ht. unfold valid_tokens in Ht.
      apply elem_of_take in Ht as (k & Hk & _).
      eapply Forall_lookup_1 in Hall'; eauto. }
    split; [eapply mask_row_length; eauto|].
    split.
    { intros c Hc. apply (mask_row_lookup _ _ _ c Hrow') in Hc as [_ Hc]. auto. }
    split.
    { destruct (lookup_lt_is_Some_2 (active_tokens st') 0 ltac:(lia)) as [t0 Ht0].
      assert (Hin : t0 ∈ valid_tokens st').
      { unfold valid_tokens. apply elem_of_take. exists 0. split; [exact Ht0 | lia]. }
      exists t0. split; [apply Hsub, Hin|].
      apply (mask_row_lookup _ _ _ t0 Hrow'). split; [|exact Hin].
      eapply mask_row_valid_lt; eauto. }
    exists st'. split; [|eapply mask_row_attendable; eauto].
    unfold state_after. rewrite for_each_snoc, Hrun. cbn [bind].
    unfold loop_body. cbn [fst snd]. rewrite Hstep. cbn [bind]. rewrite Hrow'.
    reflexivity.
Qed.

Lemma incremental_prefill_inv (s : Q) (msi : nat) (importance : nat -> list Q)
    (M : Z) (q_len kv : nat) (rows : list (list ext)) (st : eviction_state) :
  incremental_prefill s msi importance M q_len kv = Ok (rows, st) ->
  1 <= q_len /\ 1 <= kv
  /\ exists raw,
       for_each (loop_body s msi importance kv) (seq 1 (q_len - 1))
         (initial_state M, [ <[0 := Fin 0]> (replicate kv NegInf) ]) = Ok (st, raw)
       /\ rows = force_prefix msi <$> raw.
Proof.
  unfold incremental_prefill, eviction_loop. intros H.
  apply bind_ok_inv in H as ([st0 raw] & H & E). apply Ok_inj in E.
  cbn [fst snd] in E. injection E as <- <-.
  destruct (Nat.eqb_spec q_len 0); [discriminate|].
  destruct (Nat.eqb_spec kv 0); [discriminate|]. cbn [orb] in H.
  split; [lia|]. split; [lia|]. eauto.
Qed.

(** The selection mask of a snapkv or h2o_true prefill has one row per
    query and one column per key; row [i] un-masks a key only if it is
    not in the future of query [i] or lies in the always-kept prefix,
    and it un-masks at least one key that is not in the future. *)
Theorem prefill_rows_causal_and_nonempty (s : Q) (msi : nat)
    (importance : nat -> list Q) (M : Z) (q_len kv : nat)
    (rows : list (list ext)) (st : eviction_state) :
  incremental_prefill s msi importance M q_len kv = Ok (rows, st) ->
  length rows = q_len
  /\ forall i row, rows !! i = Some row ->
       length row = kv
       /\ (forall c, row !! c = Some (Fin 0) -> c <= i \/ c < msi)
       /\ exists c, c <= i /\ row !! c = Some (Fin 0).
Proof.
  intros H. apply incremental_prefill_inv in H as (Hq & Hkv & raw & Hrun & ->).
  destruct (loop_rows_inv _ _ _ _ _ _ _ _ Hkv Hrun) as (Hlen & _ & _ & Hrows).
  split; [rewrite length_fmap, Hlen; lia|].
  intros i row Hrow. rewrite list_lookup_fmap in Hrow.
  destruct (raw !! i) as [r|] eqn:Er; [|discriminate].
  apply (inj Some) in Hrow. subst row.
  destruct (Hrows _ _ Er) as (Hl & Hcausal & (c & Hc & Hz) & _).
  split; [rewrite length_force_prefix; exact Hl|]. split.
  - intros c' Hc'. destruct (Nat.lt_ge_cases c' msi) as [?|Hge]; [auto|].
    rewrite force_prefix_lookup_ge in Hc' by exact Hge. left. apply Hcausal, Hc'.
  - exists c. split; [exact Hc|].
    destruct (Nat.lt_ge_cases c msi) as [Hlt|Hge].
    + apply force_prefix_lookup; [exact Hlt|]. eapply lookup_lt_Some, Hz.
    + rewrite force_prefix_lookup_ge by exact Hge. exact Hz.
Qed.

Lemma prefill_rows_causal_and_nonempty_witness :
  length [[Fin 0; Fin 0; NegInf; NegInf]; [Fin 0; Fin 0; NegInf; NegInf];
          [Fin 0; Fin 0; Fin 0; NegInf]; [Fin 0; Fin 0; Fin 0; Fin 0]] = 4.
Proof.
  apply (prefill_rows_causal_and_nonempty (1 # 2) 2 (h2o_row_weights example_scores)
           2 4 4 _ {| active_tokens := [2; 3]; active_counts := 2 |}).
  vm_compute. reflexivity.
Defined.

(** For a retained fraction that is not negative, every row of the
    prefill selection mask after the first un-masks at most the budget
    of its step plus the always-kept prefix. *)
Theorem prefill_rows_within_budget (s : Q) (msi : nat)
    (importance : nat -> list Q) (M : Z) (q_len kv : nat)
    (rows : list (list ext)) (st : eviction_state) (i : nat) (row : list ext) :
  (0 <= s)%Q ->
  incremental_prefill s msi importance M q_len kv = Ok (rows, st) ->
  rows !! S i = Some row ->
  (Z.of_nat (attendable row) <= step_budget s msi (S i) + Z.of_nat msi)%Z.
Proof.
  intros Hs H Hrow.
  apply incremental_prefill_inv in H as (Hq & Hkv & raw & Hrun & ->).
  destruct (loop_rows_inv _ _ _ _ _ _ _ _ Hkv Hrun) as (_ & _ & _ & Hrows).
  rewrite list_lookup_fmap in Hrow.
  destruct (raw !! S i) as [r|] eqn:Er; [|discriminate].
  apply (inj Some) in Hrow. subst row.
  destruct (Hrows _ _ Er) as (_ & _ & _ & st_i & Hst & Hatt).
  pose proof (count_le_budget _ _ _ _ _ Hs _ _ Hst) as Hb.
  pose proof (attendable_force_prefix msi r). lia.
Qed.

Lemma prefill_rows_within_budget_witness :
  (Z.of_nat (attendable [Fin 0; Fin 0; Fin 0; NegInf])
   <= step_budget (1 # 2) 2 2 + Z.of_nat 2)%Z.
Proof.
  apply (prefill_rows_within_budget (1 # 2) 2 (h2o_row_weights example_scores)
           2 4 4 [[Fin 0; Fin 0; NegInf; NegInf]; [Fin 0; Fin 0; NegInf; NegInf];
                  [Fin 0; Fin 0; Fin 0; NegInf]; [Fin 0; Fin 0; Fin 0; Fin 0]]
           {| active_tokens := [2; 3]; active_counts := 2 |} 1).
  - unfold Qle; simpl; lia.
  - vm_compute. reflexivity.
  - reflexivity.
Defined.

Lemma eviction_loop_total_witness :
  exists r, eviction_loop (1 # 2) 2 (fun i => replicate (S i) 0%Q)
              (budget_for (1 # 2) 2 4) 4 4 = Ok r.
Proof.
  apply (eviction_loop_total (1 # 2) 2 (fun i => replicate (S i) 0%Q) 4 4 4).
  - unfold Qle; simpl; lia.
  - lia.
  - lia.
  - lia.
  - lia.
  - intros i. apply length_replicate.
Defined.

(** ** The loop without an always-kept prefix *)

Lemma budget_below_half (s : Q) : (0 <= s)%Q -> (s < 1 # 2)%Q -> step_budget s 0 1 = 0%Z.
Proof.
  intros H0 H1. unfold step_budget, budget_for.
  set (x := (inject_Z (Z.of_nat (1 + 1)) * s)%Q).
  assert (Hx0 : (0 <= x)%Q).
  { subst x. apply Qmult_le_0_compat; [|exact H0]. unfold Qle; simpl; lia. }
  assert (Hx1 : (x < 1)%Q).
  { subst x. destruct s as [n d]. unfold Qlt, Qle in *. simpl in *. lia. }
  rewrite py_int_floor by exact Hx0.
  assert (0 <= Qfloor x)%Z.
  { change 0%Z with (Qfloor 0). apply Qfloor_resp_le, Hx0. }
  assert (Qfloor x < 1)%Z.
  { rewrite Zlt_Qlt. eapply Qle_lt_trans; [apply Qfloor_le | exact Hx1]. }
  lia.
Qed.

(** With [min_sparse_index = 0] and less than half of the tokens
    retained, the budget of step 1 is 0: the slice of active tokens is
    empty and [torch.min] raises, so a snapkv or h2o_true prefill over
    two or more tokens fails whatever the attention scores are. *)
Theorem prefill_without_prefix_raises (s : Q) (importance : nat -> list Q)
    (M : Z) (q_len kv : nat) :
  (0 <= s)%Q -> (s < 1 # 2)%Q -> 2 <= q_len -> 1 <= kv ->
  incremental_prefill s 0 importance M q_len kv
  = Raise IndexError.
Proof.
  intros H0 H1 Hq Hkv. unfold incremental_prefill, eviction_loop.
  destruct (Nat.eqb_spec q_len 0); [lia|].
  destruct (Nat.eqb_spec kv 0); [lia|]. cbn [orb].
  destruct q_len as [|[|q]]; [lia | lia |].
  change (S (S q) - 1) with (S q). cbn [seq for_each].
  unfold loop_body at 1. cbn [fst snd].
  unfold evict_step. rewrite budget_below_half by assumption.
  cbn [initial_state active_counts active_tokens].
  reflexivity.
Qed.

Lemma prefill_without_prefix_raises_witness :
  h2o_prefill (3 # 10) 0 (h2o_row_weights example_scores) 4 4
  = Raise IndexError.
Proof.
  apply (prefill_without_prefix_raises (3 # 10) (h2o_row_weights example_scores)
           (budget_for (3 # 10) 0 4) 4 4).
  - unfold Qle; simpl; lia.
  - unfold Qlt; simpl; lia.
  - lia.
  - lia.
Defined.

(** ** Decoding with snapkv *)

(** The decode branch of snapkv neither evicts nor updates the
    persisted row: [k] keys past the persisted row give the persisted
    row followed by [k] zeros, and the row is handed on unchanged, so
    every later decode step sees the same row again. *)
Theorem snapkv_decode_keeps_cache
    (topk_selection : layer -> list (list Q) -> list (list ext) -> result (list (list ext)))
    (snapkv_mask_only : list (list Q) -> option (list ext))
    (L : layer) (score_row : list Q) (probs : list (list Q))
    (attention_mask : list (list ext)) (persisted : list ext)
    (hist : option eviction_state) (k : nat) :
  eval_llm_mode L = "snapkv" ->
  0 < layer_idx L ->
  length score_row = length persisted + k ->
  policy_branch topk_selection snapkv_mask_only L [score_row] probs attention_mask
    (Some persisted) hist
  = Ok {| attn_weights :=
            [row_add (Fin <$> score_row) (persisted ++ replicate k (Fin 0))];
          final_mask := None;
          snapkv_cache := Some persisted;
          h2o_history := hist |}.
Proof.
  intros Hmode Hl Hlen. apply Nat.ltb_lt in Hl.
  unfold policy_branch. rewrite Hmode, Hl. cbn.
  unfold snapkv_decode.
  destruct (Nat.leb_spec (length persisted) (length score_row)) as [_|Hc]; [|lia].
  replace (length score_row - length persisted) with k by lia. reflexivity.
Qed.

Lemma snapkv_decode_keeps_cache_witness :
  policy_branch no_topk no_snapkv_mask (example_layer 1 "snapkv" (1 # 2) 1)
    [[5; 6; 7; 8]%Q] [] [] (Some [Fin 0; NegInf]) None
  = Ok {| attn_weights :=
            [row_add (Fin <$> [5; 6; 7; 8]%Q) ([Fin 0; NegInf] ++ replicate 2 (Fin 0))];
          final_mask := None;
          snapkv_cache := Some [Fin 0; NegInf];
          h2o_history := None |}.
Proof.
  apply (snapkv_decode_keeps_cache no_topk no_snapkv_mask
           (example_layer 1 "snapkv" (1 # 2) 1) [5; 6; 7; 8]%Q [] []
           [Fin 0; NegInf] None 2).
  - reflexivity.
  - simpl. lia.
  - reflexivity.
Defined.

(** A single-token call that no prefill preceded (a prompt of one
    token): snapkv reads [.size] of a missing row and raises, whereas
    snapkv_prefill_wrong applies no mask at all. *)
Theorem snapkv_decode_without_prefill
    (topk_selection : layer -> list (list Q) -> list (list ext) -> result (list (list ext)))
    (snapkv_mask_only : list (list Q) -> option (list ext))
    (L : layer) (score_row : list Q) (probs : list (list Q))
    (attention_mask : list (list ext)) (hist : option eviction_state) :
  0 < layer_idx L ->
  (eval_llm_mode L = "snapkv" ->
   policy_branch topk_selection snapkv_mask_only L [score_row] probs attention_mask
     None hist = Raise AttributeError)
  /\ (eval_llm_mode L = "snapkv_prefill_wrong" ->
      policy_branch topk_selection snapkv_mask_only L [score_row] probs attention_mask
        None hist = Ok (dense_out [score_row] None hist)).
Proof.
  intros Hl. apply Nat.ltb_lt in Hl.
  split; intros Hmode; unfold policy_branch; rewrite Hmode, Hl; reflexivity.
Qed.

Lemma snapkv_decode_without_prefill_witness :
  policy_branch no_topk no_snapkv_mask (example_layer 1 "snapkv" (1 # 2) 1)
    [[5; 6]%Q] [] [] None None = Raise AttributeError.
Proof.
  apply (snapkv_decode_without_prefill no_topk no_snapkv_mask
           (example_layer 1 "snapkv" (1 # 2) 1) [5; 6]%Q [] [] None).
  - simpl. lia.
  - reflexivity.
Defined.

(** ** More on the scheduler *)

(** The LazyLLM schedule never retains more on a later layer than on
    an earlier one, and always between 10% and 100%. *)
Theorem lazyllm_retained_decreasing (l1 l2 : nat) :
  l1 <= l2 ->
  exists q1 q2,
    set_token_sparsity (Some "LazyLLM") l1 = Ok q1
    /\ set_token_sparsity (Some "LazyLLM") l2 = Ok q2
    /\ (q2 <= q1)%Q /\ (1 # 10 <= q2)%Q /\ (q1 <= 1)%Q.
Proof.
  intros Hle. do 2 eexists.
  split; [apply lazyllm_retained|]. split; [apply lazyllm_retained|].
  destruct (Nat.leb_spec l1 9), (Nat.leb_spec l1 19), (Nat.leb_spec l1 28),
    (Nat.leb_spec l2 9), (Nat.leb_spec l2 19), (Nat.leb_spec l2 28);
    try lia; repeat split; unfold Qle; simpl; lia.
Qed.

Lemma lazyllm_retained_decreasing_witness :
  exists q1 q2,
    set_token_sparsity (Some "LazyLLM") 9 = Ok q1
    /\ set_token_sparsity (Some "LazyLLM") 20 = Ok q2
    /\ (q2 <= q1)%Q /\ (1 # 10 <= q2)%Q /\ (q1 <= 1)%Q.
Proof. apply (lazyllm_retained_decreasing 9 20). lia. Defined.

Lemma no_underscore_no_piece (m : string) :
  PyStr.contains "_" m = false -> PyStr.split_char_1 "_" m = Raise IndexError.
Proof.
  unfold PyStr.split_char_1.
  induction m as [|a m IH]; [reflexivity|].
  cbn [PyStr.contains PyStr.after_char String.prefix].
  destruct (Ascii.eqb_spec a "_") as [->|Hne].
  - destruct (ascii_dec "_" "_"); [|contradiction].
    destruct m; discriminate.
  - destruct (ascii_dec "_" a) as [E|_]; [congruence|].
    cbn [orb]. exact IH.
Qed.

(** The fixed schedule: layer 0 retains everything, even under a
    malformed name; all other layers are treated alike, and a name
    without an underscore makes each of them fail with an IndexError.
    A name that contains both ["fixed"] and ["progressive"] is a fixed
    schedule. *)
Theorem fixed_schedule_layers (m : string) (l l' : nat) :
  String.eqb m "LazyLLM" = false ->
  PyStr.contains "fixed" m = true ->
  set_token_sparsity (Some m) 0 = Ok 1%Q
  /\ set_token_sparsity (Some m) (S l) = set_token_sparsity (Some m) (S l')
  /\ (PyStr.contains "_" m = false ->
      set_token_sparsity (Some m) (S l) = Raise IndexError).
Proof.
  intros H1 H2. unfold set_token_sparsity. rewrite H1, H2. cbn [Nat.eqb].
  repeat split. intros Hu. rewrite no_underscore_no_piece by exact Hu. reflexivity.
Qed.

Lemma fixed_schedule_layers_witness :
  set_token_sparsity (Some "fixed") 0 = Ok 1%Q
  /\ set_token_sparsity (Some "fixed") 3 = set_token_sparsity (Some "fixed") 8
  /\ (PyStr.contains "_" "fixed" = false ->
      set_token_sparsity (Some "fixed") 3 = Raise IndexError).
Proof. apply (fixed_schedule_layers "fixed" 2 7); reflexivity. Defined.

(** The progressive schedule reads the percentage out of its name on
    every layer, layer 0 included: a name without an underscore fails
    everywhere (the fixed schedule lets layer 0 pass).  Where the name
    is well formed, layer 0 retains everything, and layer 1 retains
    exactly what a fixed schedule with the same percentage piece
    retains on every layer above 0. *)
Theorem progressive_schedule_first_layers (m : string) :
  String.eqb m "LazyLLM" = false ->
  PyStr.contains "fixed" m = false ->
  PyStr.contains "progressive" m = true ->
  (PyStr.contains "_" m = false ->
   forall l, set_token_sparsity (Some m) l = Raise IndexError)
  /\ (forall keep, set_token_sparsity (Some m) 1 = Ok keep ->
      set_token_sparsity (Some m) 0 = Ok 1%Q)
  /\ (forall (m' : string) (l : nat),
        String.eqb m' "LazyLLM" = false ->
        PyStr.contains "fixed" m' = true ->
        PyStr.split_char_1 "_" m' = PyStr.split_char_1 "_" m ->
        set_token_sparsity (Some m') (S l) = set_token_sparsity (Some m) 1).
Proof.
  intros H1 H2 H3. unfold set_token_sparsity. rewrite H1, H2, H3.
  split; [|split].
  - intros Hu l. rewrite no_underscore_no_piece by exact Hu. reflexivity.
  - intros keep H. apply bind_ok_inv in H as (piece & Hp & H).
    apply bind_ok_inv in H as (x & Hx & _).
    rewrite Hp. cbn [bind]. rewrite Hx. reflexivity.
  - intros m' l H1' H2' Hpiece. rewrite H1', H2', Hpiece. cbn [Nat.eqb].
    destruct (PyStr.split_char_1 "_" m) as [piece|e]; [|reflexivity].
    cbn [bind].
    destruct (PyStr.float (PyStr.split_0 "pc" piece)) as [x|e]; reflexivity.
Qed.

Lemma progressive_schedule_first_layers_witness :
  set_token_sparsity (Some "progressive_10pc") 0 = Ok 1%Q
  /\ set_token_sparsity (Some "fixed_10pc") 7 = set_token_sparsity (Some "progressive_10pc") 1.
Proof.
  destruct (progressive_schedule_first_layers "progressive_10pc") as (_ & H0 & H1);
    [reflexivity | reflexivity | reflexivity |].
  split.
  - apply (H0 (1 - 10 / 100)%Q). reflexivity.
  - apply (H1 "fixed_10pc" 6); reflexivity.
Defined.

(** ** The cache across a call of [forward] *)

(** A call that returns hands back no cache when [use_cache] is off.
    When it is on, the call was given a cache (possibly replaced by a
    fresh one at line 186), that cache has grown by exactly the number
    of query tokens, and its persisted eviction state is untouched
    unless the policy is h2o_true. *)
Theorem forward_cache_protocol
    (topk_selection : layer -> list (list Q) -> list (list ext) -> result (list (list ext)))
    (snapkv_mask_only : list (list Q) -> option (list ext))
    (L : layer) (cache : option (list ext)) (past_key_value : cache_arg)
    (use_cache : bool) (attention_mask : option (list (list ext)))
    (scores probs : list (list Q)) (out : forward_out) :
  forward topk_selection snapkv_mask_only L cache past_key_value use_cache
    attention_mask scores probs = Ok out ->
  (use_cache = false -> past_key_value_after out = NoCache)
  /\ (use_cache = true ->
      exists c c',
        normalize_cache past_key_value = Ok (Baseline c)
        /\ past_key_value_after out = Baseline c'
        /\ seq_length c' = seq_length c + length scores
        /\ (String.eqb (eval_llm_mode L) "h2o_true" = false ->
            h2o_importance c' = h2o_importance c)).
Proof.
  unfold forward. intros H.
  destruct (normalize_cache past_key_value) as [p|e]; [|discriminate].
  cbn [bind] in H.
  destruct use_cache.
  - split; [discriminate|]. intros _.
    destruct p as [|c| |]; try discriminate. cbn [bind] in H.
    destruct (group_factor L =? 0); [discriminate|].
    destruct (negb (head_dim L mod group_factor L =? 0)); [discriminate|].
    apply bind_ok_inv in H as (b & _ & H). apply Ok_inj in H. subst out.
    cbn [past_key_value_after].
    destruct (String.eqb (eval_llm_mode L) "h2o_true").
    + eexists c, _. split; [reflexivity|]. split; [reflexivity|].
      split; [reflexivity|]. discriminate.
    + eexists c, _. split; [reflexivity|]. split; [reflexivity|].
      split; reflexivity.
  - split; [|discriminate]. intros _. cbn [bind] in H.
    destruct (group_factor L =? 0); [discriminate|].
    destruct (negb (head_dim L mod group_factor L =? 0)); [discriminate|].
    apply bind_ok_inv in H as (b & _ & H). apply Ok_inj in H. subst out.
    reflexivity.
Qed.

Lemma forward_cache_protocol_witness :
  (true = false ->
   Baseline {| seq_length := 4;
               h2o_importance := Some {| active_tokens := [2; 3]; active_counts := 2 |} |}
   = NoCache)
  /\ (true = true ->
      exists c c',
        normalize_cache (PlainDynamic 0) = Ok (Baseline c)
        /\ Baseline {| seq_length := 4;
                       h2o_importance :=
                         Some {| active_tokens := [2; 3]; active_counts := 2 |} |}
           = Baseline c'
        /\ seq_length c' = seq_length c + length example_scores
        /\ (String.eqb "h2o_true" "h2o_true" = false ->
            h2o_importance c' = h2o_importance c)).
Proof.
  apply (forward_cache_protocol no_topk no_snapkv_mask
           (example_layer 1 "h2o_true" (1 # 2) 2) None (PlainDynamic 0) true None
           example_scores []
           {| logits := [[Fin 0; NegInf; NegInf; NegInf]; [Fin 0; Fin 0; NegInf; NegInf];
                         [Fin 0; Fin 5; Fin 10; NegInf]; [Fin 0; Fin 1; Fin 2; Fin 3]];
              selection_mask :=
                Some [[Fin 0; Fin 0; NegInf; NegInf]; [Fin 0; Fin 0; NegInf; NegInf];
                      [Fin 0; Fin 0; Fin 0; NegInf]; [Fin 0; Fin 0; Fin 0; Fin 0]];
              snapkv_cache_after := None;
              past_key_value_after :=
                Baseline {| seq_length := 4;
                            h2o_importance :=
                              Some {| active_tokens := [2; 3];
                                      active_counts := 2 |} |} |}).
  vm_compute. reflexivity.
Defined.

(** ** Layers that retain everything *)



(** ** The sparsity accountant *)

Lemma ext_bool_add_zero (a : ext) : ext_bool (ext_add (Fin 0) a) = ext_bool a.
Proof.
  destruct a as [|y]; [reflexivity|]. simpl. f_equal.
  apply Qeqb_comp; [apply Qplus_0_l | reflexivity].
Qed.

Lemma count_deactivated (fr ar : list ext) :
  length fr = length ar -> Forall legal_mask_value fr ->
  count_true (ext_bool <$> row_add fr ar)
  = count_true (ext_bool <$> ar) + suppressed fr ar
  /\ suppressed fr ar <= count_true ((fun a => negb (ext_bool a)) <$> ar).
Proof.
  revert ar. induction fr as [|f fr IH]; intros [|a ar] Hlen Hleg;
    try discriminate; [simpl; lia|].
  apply Forall_cons in Hleg as [Hf Hleg]. injection Hlen as Hlen.
  destruct (IH ar Hlen Hleg) as [IH1 IH2].
  unfold row_add in *. cbn [zip_with fmap list_fmap count_true suppressed].
  change (list_fmap ext bool ext_bool) with (fmap (M:=list) ext_bool).
  change (list_fmap ext bool (fun a => negb (ext_bool a)))
    with (fmap (M:=list) (fun a => negb (ext_bool a))).
  rewrite IH1. destruct Hf as [-> | ->].
  - rewrite ext_bool_add_zero. cbn [is_neg_inf andb]. split; [lia|].
    destruct (ext_bool a); simpl; lia.
  - cbn [ext_add ext_bool is_neg_inf andb]. destruct (ext_bool a); simpl; lia.
Qed.

Lemma count_active_positive (ar : list ext) :
  (exists a, a ∈ ar /\ ext_bool a = false) ->
  1 <= count_true ((fun a => negb (ext_bool a)) <$> ar).
Proof.
  intros (a & Hin & Ha). induction Hin as [a ar | a b ar Hin IH].
  - rewrite fmap_cons. cbn [count_true]. rewrite Ha. simpl. lia.
  - rewrite fmap_cons. cbn [count_true]. specialize (IH Ha). lia.
Qed.

Lemma sparsity_ratio_value (fr ar : list ext) :
  length fr = length ar -> Forall legal_mask_value fr ->
  (exists a, a ∈ ar /\ ext_bool a = false) ->
  exists na,
    1 <= na /\ suppressed fr ar <= na
    /\ sparsity_ratio fr ar
       = Finite (inject_Z (Z.of_nat (suppressed fr ar)) / inject_Z (Z.of_nat na)).
Proof.
  intros Hlen Hleg Hact.
  destruct (count_deactivated fr ar Hlen Hleg) as [H1 H2].
  pose proof (count_active_positive ar Hact) as H3.
  exists (count_true ((fun a => negb (ext_bool a)) <$> ar)).
  split; [exact H3|]. split; [exact H2|].
  unfold sparsity_ratio. rewrite H1.
  destruct (Nat.eqb_spec (count_true ((fun a => negb (ext_bool a)) <$> ar)) 0);
    [lia|].
  do 3 f_equal. lia.
Qed.

Lemma nat_ratio_unit (a b : nat) :
  1 <= b -> a <= b ->
  (0 <= inject_Z (Z.of_nat a) / inject_Z (Z.of_nat b))%Q
  /\ (inject_Z (Z.of_nat a) / inject_Z (Z.of_nat b) <= 1)%Q.
Proof.
  intros Hb Hab.
  assert (Hpos : (0 < inject_Z (Z.of_nat b))%Q).
  { change 0%Q with (inject_Z 0). rewrite <- Zlt_Qlt. lia. }
  split.
  - apply Qle_shift_div_l; [exact Hpos|]. rewrite Qmult_0_l.
    change 0%Q with (inject_Z 0). rewrite <- Zle_Qle. lia.
  - apply Qle_shift_div_r; [exact Hpos|]. rewrite Qmult_1_l.
    rewrite <- Zle_Qle. lia.
Qed.

Lemma well_formed_ratios (slices : list (list (list ext) * list (list ext))) :
  Forall well_formed_slice slices -> Forall unit_ratio (sparsity_ratios slices).
Proof.
  intros H. unfold sparsity_ratios. apply Forall_concat, Forall_fmap.
  eapply Forall_impl; [exact H|]. intros [fm am] Hwf. cbn [fst snd].
  unfold well_formed_slice in Hwf. cbn [fst snd] in Hwf.
  induction Hwf as [|fr ar fm am (Hlen & Hleg & Hact) _ IH]; [constructor|].
  cbn [zip_with]. constructor; [|exact IH].
  destruct (sparsity_ratio_value fr ar Hlen Hleg Hact) as (na & Hna & Hle & ->).
  eexists. split; [reflexivity|]. apply nat_ratio_unit; assumption.
Qed.

Lemma float_sum_unit (l : list pyfloat) :
  Forall unit_ratio l ->
  exists t, float_sum l = Finite t
            /\ (0 <= t)%Q /\ (t <= inject_Z (Z.of_nat (length l)))%Q.
Proof.
  induction 1 as [|r l (q & -> & Hq0 & Hq1) _ (t & Ht & Ht0 & Ht1)].
  - exists 0%Q. repeat split; apply Qle_refl.
  - cbn [float_sum]. rewrite Ht. exists (q + t)%Q. split; [reflexivity|]. split.
    + change 0%Q with (0 + 0)%Q. apply Qplus_le_compat; assumption.
    + cbn [length]. rewrite Nat2Z.inj_succ. unfold Z.succ.
      rewrite inject_Z_plus, Qplus_comm. apply Qplus_le_compat; assumption.
Qed.

Lemma effective_sparsity_is_percentage_aux
    (sl : list (list ext) * list (list ext))
    (rest : list (list (list ext) * list (list ext))) :
  fst sl <> [] ->
  Forall well_formed_slice (sl :: rest) ->
  exists r l, sparsity_ratios (sl :: rest) = r :: l.
Proof.
  intros Hne Hwf.
  destruct (sparsity_ratios (sl :: rest)) as [|r l] eqn:El; [|eauto].
  exfalso. unfold sparsity_ratios in El. cbn [fmap list_fmap concat] in El.
  apply app_eq_nil in El as [El _].
  apply Forall_cons in Hwf as [Hsl _]. unfold well_formed_slice in Hsl.
  destruct sl as [[|fr fm] am]; [contradiction|]. cbn [fst snd] in *.
  inversion Hsl; subst. discriminate.
Qed.

(** When every slice is well formed and there is at least one query
    row, the reported effective sparsity is a number between 0 and
    100. *)
Theorem effective_sparsity_is_percentage
    (sl : list (list ext) * list (list ext))
    (rest : list (list (list ext) * list (list ext))) :
  fst sl <> [] ->
  Forall well_formed_slice (sl :: rest) ->
  exists e, effective_sparsity_of (sl :: rest) = Finite e
            /\ (0 <= e)%Q /\ (e <= 100)%Q.
Proof.
  intros Hne Hwf.
  pose proof (well_formed_ratios _ Hwf) as Hunit.
  destruct (float_sum_unit _ Hunit) as (t & Ht & Ht0 & Ht1).
  unfold effective_sparsity_of, float_mean.
  destruct (sparsity_ratios (sl :: rest)) as [|r l] eqn:El.
  { exfalso. unfold sparsity_ratios in El. cbn [fmap list_fmap concat] in El.
    apply app_eq_nil in El as [El _].
    apply Forall_cons in Hwf as [Hsl _]. unfold well_formed_slice in Hsl.
    destruct sl as [[|fr fm] am]; [contradiction|]. cbn [fst snd] in *.
    inversion Hsl; subst. discriminate. }
  rewrite Ht.
  set (n := inject_Z (Z.of_nat (length (r :: l)))) in *.
  assert (Hn : (0 < n)%Q).
  { subst n. change 0%Q with (inject_Z 0). rewrite <- Zlt_Qlt. simpl. lia. }
  eexists. split; [reflexivity|]. split.
  - apply Qmult_le_0_compat; [discriminate|].
    apply Qle_shift_div_l; [exact Hn|]. rewrite Qmult_0_l. exact Ht0.
  - apply Qle_trans with (100 * 1)%Q; [|discriminate].
    apply Qmult_le_l; [reflexivity|].
    apply Qle_shift_div_r; [exact Hn|]. rewrite Qmult_1_l. exact Ht1.
Qed.

Lemma effective_sparsity_is_percentage_witness :
  exists e,
    effective_sparsity_of
      [([[Fin 0; NegInf; NegInf]; [Fin 0; NegInf; NegInf]; [Fin 0; NegInf; Fin 0]],
        causal_mask 3 3)] = Finite e
    /\ (0 <= e)%Q /\ (e <= 100)%Q.
Proof.
  apply (effective_sparsity_is_percentage
           ([[Fin 0; NegInf; NegInf]; [Fin 0; NegInf; NegInf]; [Fin 0; NegInf; Fin 0]],
            causal_mask 3 3) []).
  - discriminate.
  - repeat constructor; exists (Fin 0); (split; [|reflexivity]);
      repeat constructor.
Defined.

Lemma float_sum_zero (l : list pyfloat) :
  Forall (fun r => exists q, r = Finite q /\ q == 0) l ->
  exists t, float_sum l = Finite t /\ t == 0.
Proof.
  induction 1 as [|r l (q & -> & Hq) _ (t & Ht & Ht0)].
  - exists 0%Q. split; reflexivity.
  - cbn [float_sum]. rewrite Ht. exists (q + t)%Q. split; [reflexivity|].
    rewrite Hq, Ht0. reflexivity.
Qed.

(** A selection mask that suppresses no causally active key, for
    instance one that hides future positions only, is reported as 0%
    sparse. *)
Theorem effective_sparsity_zero
    (sl : list (list ext) * list (list ext))
    (rest : list (list (list ext) * list (list ext))) :
  fst sl <> [] ->
  Forall well_formed_slice (sl :: rest) ->
  Forall suppresses_nothing (sl :: rest) ->
  exists e, effective_sparsity_of (sl :: rest) = Finite e /\ e == 0.
Proof.
  intros Hne Hwf Hnone.
  destruct (effective_sparsity_is_percentage_aux sl rest Hne Hwf) as (r & l & El).
  assert (Hz : Forall (fun r => exists q, r = Finite q /\ q == 0)
                 (sparsity_ratios (sl :: rest))).
  { unfold sparsity_ratios. apply Forall_concat, Forall_fmap.
    apply Forall_forall. intros [fm am] Hin. cbn [fst snd].
    rewrite Forall_forall in Hwf, Hnone.
    specialize (Hwf _ Hin). specialize (Hnone _ Hin).
    unfold well_formed_slice, suppresses_nothing in *. cbn [fst snd] in *.
    clear Hin. induction Hwf as [|fr ar fm am (Hlen & Hleg & Hact) _ IH];
      [constructor|].
    apply Forall2_cons in Hnone as [H0 Hnone].
    cbn [zip_with]. constructor; [|apply IH, Hnone].
    destruct (sparsity_ratio_value fr ar Hlen Hleg Hact) as (na & Hna & Hle & ->).
    rewrite H0. eexists. split; [reflexivity|].
    unfold Qdiv. cbn [Z.of_nat]. change (inject_Z 0) with 0%Q. apply Qmult_0_l. }
  destruct (float_sum_zero _ Hz) as (t & Ht & Ht0).
  unfold effective_sparsity_of, float_mean. rewrite El in *. rewrite Ht.
  eexists. split; [reflexivity|]. rewrite Ht0. unfold Qdiv. rewrite Qmult_0_l.
  reflexivity.
Qed.

Lemma effective_sparsity_zero_witness :
  exists e,
    effective_sparsity_of
      [([[Fin 0; NegInf; NegInf]; [Fin 0; Fin 0; NegInf]; [Fin 0; Fin 0; Fin 0]],
        causal_mask 3 3)] = Finite e
    /\ e == 0.
Proof.
  apply (effective_sparsity_zero
           ([[Fin 0; NegInf; NegInf]; [Fin 0; Fin 0; NegInf]; [Fin 0; Fin 0; Fin 0]],
            causal_mask 3 3) []).
  - discriminate.
  - repeat constructor; exists (Fin 0); (split; [|reflexivity]);
      repeat constructor.
  - repeat constructor.
Defined.

Lemma float_sum_not_finite (l : list pyfloat) :
  NotFinite ∈ l -> float_sum l = NotFinite.
Proof.
  induction l as [|r l IH]; intros H; [inversion H|].
  destruct r as [q|]; [|reflexivity].
  cbn [float_sum]. rewrite IH; [reflexivity|].
  apply elem_of_cons in H as [H|H]; [discriminate | exact H].
Qed.

Lemma sparsity_ratio_no_active (fr ar : list ext) :
  Forall (fun a => ext_bool a = true) ar -> sparsity_ratio fr ar = NotFinite.
Proof.
  intros H. unfold sparsity_ratio.
  assert (E : count_true ((fun a => negb (ext_bool a)) <$> ar) = 0).
  { induction H as [|a ar Ha _ IH]; [reflexivity|].
    rewrite fmap_cons. cbn [count_true]. rewrite Ha, IH. reflexivity. }
  rewrite E. reflexivity.
Qed.

(** A query row whose attention mask leaves no key active (a fully
    padded row) divides by zero: the reported effective sparsity is
    then not a number, whatever the other rows and slices hold. *)
Theorem effective_sparsity_fully_masked_row
    (slices : list (list (list ext) * list (list ext)))
    (sl : list (list ext) * list (list ext)) (i : nat)
    (final_row attention_row : list ext) :
  sl ∈ slices ->
  fst sl !! i = Some final_row ->
  snd sl !! i = Some attention_row ->
  Forall (fun a => ext_bool a = true) attention_row ->
  effective_sparsity_of slices = NotFinite
  /\ account_sparsity 1 (Some slices) None = Some NotFinite.
Proof.
  intros Hin Hf Ha Hall.
  assert (Hmem : NotFinite ∈ sparsity_ratios slices).
  { unfold sparsity_ratios. apply list_elem_of_In, in_concat.
    exists (zip_with sparsity_ratio (fst sl) (snd sl)). split.
    - apply list_elem_of_In.
      apply (list_elem_of_fmap_2 (fun sl => zip_with sparsity_ratio (fst sl) (snd sl))).
      exact Hin.
    - apply list_elem_of_In.
      rewrite <- (sparsity_ratio_no_active final_row attention_row Hall).
      eapply elem_of_lookup_zip_with_2; eauto. exact NotFinite. }
  assert (E : effective_sparsity_of slices = NotFinite).
  { apply float_sum_not_finite in Hmem.
    unfold effective_sparsity_of, float_mean.
    destruct (sparsity_ratios slices); [reflexivity|]. rewrite Hmem. reflexivity. }
  split; [exact E|]. unfold account_sparsity. cbn [Nat.eqb]. rewrite E. reflexivity.
Qed.

Lemma effective_sparsity_fully_masked_row_witness :
  effective_sparsity_of
    [([[Fin 0; Fin 0]; [Fin 0; NegInf]], [[Fin 0; Fin 0]; [NegInf; NegInf]])]
  = NotFinite
  /\ account_sparsity 1
       (Some [([[Fin 0; Fin 0]; [Fin 0; NegInf]], [[Fin 0; Fin 0]; [NegInf; NegInf]])])
       None = Some NotFinite.
Proof.
  apply (effective_sparsity_fully_masked_row
           [([[Fin 0; Fin 0]; [Fin 0; NegInf]], [[Fin 0; Fin 0]; [NegInf; NegInf]])]
           ([[Fin 0; Fin 0]; [Fin 0; NegInf]], [[Fin 0; Fin 0]; [NegInf; NegInf]])
           1 [Fin 0; NegInf] [NegInf; NegInf]).
  - apply list_elem_of_here.
  - reflexivity.
  - reflexivity.
  - repeat constructor.
Defined.

(** ** The streamingLLM rank table *)

Lemma elem_of_rev_iff {A : Type} (x : A) (l : list A) : x ∈ rev l <-> x ∈ l.
Proof.
  rewrite !list_elem_of_In. symmetry. apply in_rev.
Qed.

Lemma sinks_and_recent (c x : nat) :
  x ∈ [0; 1; 2; 3] ++ rev (seq 4 (c - 4)) <-> x < Nat.max c 4.
Proof.
  rewrite elem_of_app, elem_of_rev_iff, elem_of_seq.
  rewrite !elem_of_cons, elem_of_nil. lia.
Qed.

Lemma sinks_and_recent_NoDup (c : nat) : NoDup ([0; 1; 2; 3] ++ rev (seq 4 (c - 4))).
Proof.
  apply NoDup_app. split; [|split].
  - repeat (apply NoDup_cons; split; [rewrite ?elem_of_cons, ?elem_of_nil; lia|]).
    apply NoDup_nil_2.
  - intros x Hx. rewrite elem_of_rev_iff, elem_of_seq.
    rewrite !elem_of_cons, elem_of_nil in Hx. lia.
  - apply NoDup_ListNoDup, NoDup_rev, NoDup_ListNoDup, NoDup_seq.
Qed.

Lemma ll_six_lookup (set_to_list : list nat -> list nat) (q_len p : nat)
    (row : list nat) :
  generate_ll_six set_to_list q_len !! p = Some row ->
  p < q_len /\ row = ll_six_row set_to_list q_len (S p).
Proof.
  unfold generate_ll_six. rewrite list_lookup_fmap. intros H.
  destruct (seq 1 q_len !! p) as [c|] eqn:E; [|discriminate].
  apply lookup_seq in E as [-> Hp]. apply (inj Some) in H. auto.
Qed.

(** For four or more keys, and whatever order the set difference is
    iterated in, every row of the table is a ranking of all key
    positions: it lists each position once, starts with the four sink
    tokens, and ranks every key up to position [max p 3] above every
    later key. *)
Theorem ll_six_rows_rank_all_keys (set_to_list : list nat -> list nat)
    (q_len p : nat) (row : list nat) :
  (forall l, set_to_list l ≡ₚ l) ->
  4 <= q_len ->
  generate_ll_six set_to_list q_len !! p = Some row ->
  row ≡ₚ seq 0 q_len
  /\ take 4 row = [0; 1; 2; 3]
  /\ forall j k x y,
       row !! j = Some x -> row !! k = Some y ->
       x <= Nat.max p 3 -> Nat.max p 3 < y -> j < k.
Proof.
  intros Hperm Hq H. apply ll_six_lookup in H as [Hp ->].
  unfold ll_six_row.
  set (mt := [0; 1; 2; 3] ++ rev (seq 4 (S p - 4))).
  set (remmt := set_to_list (filter (fun x => x ∉ mt) (seq 0 q_len))).
  assert (Hmt : forall x, x ∈ mt <-> x < Nat.max (S p) 4) by apply sinks_and_recent.
  assert (Hrem : forall x, x ∈ remmt <-> (x ∉ mt) /\ x < q_len).
  { intros x. subst remmt. rewrite Hperm, list_elem_of_filter, elem_of_seq.
    intuition lia. }
  split; [|split].
  - apply NoDup_Permutation.
    + apply NoDup_app. split; [apply sinks_and_recent_NoDup|]. split.
      * intros x Hx Hx'. apply Hrem in Hx' as [Hx' _]. contradiction.
      * subst remmt. rewrite Hperm. apply NoDup_filter, NoDup_seq.
    + apply NoDup_seq.
    + intros x. rewrite elem_of_app, Hrem, Hmt, elem_of_seq. lia.
  - reflexivity.
  - intros j k x y Hj Hk Hx Hy.
    assert (Hxin : x ∈ mt) by (apply Hmt; lia).
    assert (Hyout : y ∉ mt) by (rewrite Hmt; lia).
    apply lookup_app_Some in Hj as [Hj | [_ Hj]].
    + apply lookup_lt_Some in Hj.
      apply lookup_app_Some in Hk as [Hk | [Hk _]]; [|lia].
      exfalso. apply Hyout. eapply list_elem_of_lookup_2, Hk.
    + exfalso. apply list_elem_of_lookup_2 in Hj. apply Hrem in Hj as [Hj _].
      contradiction.
Qed.

Lemma ll_six_rows_rank_all_keys_witness :
  [0; 1; 2; 3; 5; 4] ≡ₚ seq 0 6
  /\ take 4 [0; 1; 2; 3; 5; 4] = [0; 1; 2; 3]
  /\ forall j k x y,
       [0; 1; 2; 3; 5; 4] !! j = Some x -> [0; 1; 2; 3; 5; 4] !! k = Some y ->
       x <= Nat.max 5 3 -> Nat.max 5 3 < y -> j < k.
Proof.
  apply (ll_six_rows_rank_all_keys (fun l => l) 6 5 [0; 1; 2; 3; 5; 4]).
  - intros l. reflexivity.
  - lia.
  - reflexivity.
Defined.

(** For fewer than four keys every row is [0, 1, 2, 3]: it is longer
    than the number of keys and names positions that do not exist. *)
Theorem ll_six_short_sequence (set_to_list : list nat -> list nat)
    (q_len p : nat) (row : list nat) :
  (forall l, set_to_list l ≡ₚ l) ->
  q_len < 4 ->
  generate_ll_six set_to_list q_len !! p = Some row ->
  row = [0; 1; 2; 3] /\ q_len < length row /\ 3 ∈ row.
Proof.
  intros Hperm Hq H. apply ll_six_lookup in H as [Hp ->].
  unfold ll_six_row. replace (S p - 4) with 0 by lia. cbn [seq rev app].
  assert (E : filter (fun x => x ∉ [0; 1; 2; 3]) (seq 0 q_len) = []).
  { apply elem_of_nil_inv. intros x Hx.
    apply list_elem_of_filter in Hx as [Hx Hin]. apply elem_of_seq in Hin.
    apply Hx. rewrite !elem_of_cons, elem_of_nil. lia. }
  rewrite E. rewrite (proj1 (Permutation_nil_r _) (Hperm [])).
  split; [reflexivity|]. split; [simpl; lia|].
  rewrite !elem_of_cons. auto.
Qed.

Lemma ll_six_short_sequence_witness :
  [0; 1; 2; 3] = [0; 1; 2; 3] /\ 2 < length [0; 1; 2; 3] /\ 3 ∈ [0; 1; 2; 3].
Proof.
  apply (ll_six_short_sequence (fun l => l) 2 1 [0; 1; 2; 3]).
  - intros l. reflexivity.
  - lia.
  - reflexivity.
Defined.

(** ** The conversion of a model *)

Lemma module_ind' (P : module -> Prop) :
  P LlamaAttention ->
  (forall l p, P (Experimental l p)) ->
  (forall cs, Forall P cs -> P (Container cs)) ->
  forall m, P m.
Proof.
  intros HA HE HC. fix IH 1. intros [|l p|cs]; [exact HA | apply HE | apply HC].
  induction cs as [|c cs IHcs]; constructor; [apply IH | exact IHcs].
Qed.

Lemma convert_module_container (pf : Z) (cs : list module) (st : conv_state) :
  convert_module pf (Container cs) st
  = (r <-- recurse_convert pf cs st ;; Ok (Container (fst r), snd r)).
Proof.
  cbn [convert_module].
  match goal with
  | |- bind ?a _ = bind ?b _ => assert (E : a = b); [|rewrite E; reflexivity]
  end.
  revert st. induction cs as [|c cs IH]; intros st; [reflexivity|].
  cbn [recurse_convert].
  destruct (convert_module pf c st) as [r1|e]; cbn [bind]; [|reflexivity].
  rewrite <- IH. reflexivity.
Qed.

Lemma div_pred_same (pf k : Z) :
  (0 < pf)%Z -> (0 <= k)%Z -> (k mod pf <> 0)%Z -> ((k - 1) / pf = k / pf)%Z.
Proof.
  intros Hpf Hk Hm. symmetry.
  apply Z.div_unique_pos with (r := (k mod pf - 1)%Z).
  - pose proof (Z.mod_pos_bound k pf Hpf). lia.
  - pose proof (Z.div_mod k pf ltac:(lia)). lia.
Qed.

Lemma convert_attention_spec (pf : Z) (st : conv_state) :
  (0 < pf)%Z -> walk_state pf st ->
  exists st',
    convert_attention pf st
    = Ok (Experimental (fst (assigned_layer pf (fst st)))
                       (snd (assigned_layer pf (fst st))), st')
    /\ fst st' = S (fst st) /\ walk_state pf st'.
Proof.
  intros Hpf Hst. destruct st as [idx prod]. unfold convert_attention, assigned_layer.
  cbn [fst snd] in *. destruct (Z.eqb_spec pf 0) as [?|_]; [lia|].
  pose proof (Z.div_mod (Z.of_nat idx) pf ltac:(lia)) as Hdm.
  pose proof (Z.mod_pos_bound (Z.of_nat idx) pf Hpf) as Hb.
  destruct (Z.eqb_spec (Z.of_nat idx mod pf) 0) as [Hz|Hnz].
  - eexists. split; [reflexivity|]. split; [reflexivity|].
    unfold walk_state. cbn [fst snd]. f_equal. lia.
  - exists (S idx, prod). split; [|split; [reflexivity|]].
    + cbn [fst snd]. do 3 f_equal.
      unfold walk_state in Hst. cbn [fst snd] in Hst.
      destruct idx as [|k]; [exfalso; apply Hnz, Zmod_0_l|]. rewrite Hst. f_equal.
      pose proof (div_pred_same pf (Z.of_nat (S k)) Hpf ltac:(lia) Hnz) as Hd.
      replace (Z.of_nat (S k) - 1)%Z with (Z.of_nat k) in Hd by lia.
      rewrite Hd. lia.
    + unfold walk_state in *. cbn [fst snd] in *.
      destruct idx as [|k]; [exfalso; apply Hnz, Zmod_0_l|]. rewrite Hst. f_equal.
      pose proof (div_pred_same pf (Z.of_nat (S k)) Hpf ltac:(lia) Hnz) as Hd.
      replace (Z.of_nat (S k) - 1)%Z with (Z.of_nat k) in Hd by lia.
      rewrite Hd. reflexivity.
Qed.

Lemma concat_nil_Forall {A : Type} (ls : list (list A)) :
  concat ls = [] -> Forall (fun l => l = []) ls.
Proof.
  induction ls as [|l ls IH]; [constructor|]. simpl. intros H.
  apply app_eq_nil in H as [-> H]. constructor; [reflexivity | apply IH, H].
Qed.

(** What the walk does to a model that holds no converted layer yet. *)
Lemma convert_module_spec (pf : Z) (m : module) :
  (0 < pf)%Z ->
  forall st m' st',
    experimental_layers m = [] -> walk_state pf st ->
    convert_module pf m st = Ok (m', st') ->
    fst st' = fst st + attention_count m
    /\ walk_state pf st'
    /\ attention_count m' = 0
    /\ experimental_layers m'
       = assigned_layer pf <$> seq (fst st) (attention_count m).
Proof.
  intros Hpf. induction m as [|l p|cs IH] using module_ind'; intros st m' st' Hfresh Hst H.
  - cbn [convert_module] in H.
    destruct (convert_attention_spec pf st Hpf Hst) as (st1 & E & Hidx & Hst1).
    rewrite E in H. apply Ok_inj in H. injection H as <- <-.
    cbn [attention_count seq fmap list_fmap experimental_layers].
    split; [lia|]. split; [exact Hst1|]. split; [reflexivity|].
    destruct (assigned_layer pf (fst st)); reflexivity.
  - discriminate.
  - rewrite convert_module_container in H.
    apply bind_ok_inv in H as ([cs' st1] & H & E). apply Ok_inj in E.
    cbn [fst snd] in E. injection E as <- <-.
    cbn [experimental_layers attention_count] in *.
    apply concat_nil_Forall in Hfresh. rewrite Forall_fmap in Hfresh.
    revert st cs' st1 Hst H.
    induction IH as [|c cs IHc _ IHcs]; intros st cs' st1 Hst H.
    + apply Ok_inj in H. injection H as <- <-. cbn. split; [lia|]. auto.
    + cbn [recurse_convert] in H.
      apply bind_ok_inv in H as ([c' st2] & Hc & H).
      apply bind_ok_inv in H as ([cs2 st3] & Hcs & E). apply Ok_inj in E.
      cbn [fst snd] in *. injection E as <- <-.
      apply Forall_cons in Hfresh as [Hfc Hfcs].
      destruct (IHc _ _ _ Hfc Hst Hc) as (Hi1 & Hs1 & Ha1 & He1).
      destruct (IHcs Hfcs _ _ _ Hs1 Hcs) as (Hi2 & Hs2 & Ha2 & He2).
      cbn [foldr fmap list_fmap concat].
      change (list_fmap module (list (nat * option nat)) experimental_layers)
        with (fmap (M:=list) experimental_layers).
      split; [lia|]. split; [exact Hs2|]. split; [lia|].
      rewrite He1, He2, Hi1, seq_app, fmap_app. reflexivity.
Qed.

Lemma attention_sum_zero (cs : list module) :
  foldr (fun c n => attention_count c + n) 0 cs = 0 ->
  Forall (fun c => attention_count c = 0) cs.
Proof.
  induction cs as [|c cs IH]; [constructor|]. cbn [foldr]. intros H.
  constructor; [lia | apply IH; lia].
Qed.

(** A module without attention layers is left as it is, whatever the
    frequency. *)
Lemma convert_module_no_attention (pf : Z) (m : module) (st : conv_state) :
  attention_count m = 0 -> convert_module pf m st = Ok (m, st).
Proof.
  revert st. induction m as [|l p|cs IH] using module_ind'; intros st H.
  - discriminate.
  - reflexivity.
  - rewrite convert_module_container. cbn [attention_count] in H.
    apply attention_sum_zero in H.
    assert (E : recurse_convert pf cs st = Ok (cs, st)).
    { revert st. induction IH as [|c cs IHc _ IHcs]; intros st; [reflexivity|].
      apply Forall_cons in H as [Hc Hcs]. cbn [recurse_convert].
      rewrite IHc by exact Hc. cbn [bind fst snd]. rewrite IHcs by exact Hcs.
      reflexivity. }
    rewrite E. reflexivity.
Qed.

Lemma convert_module_zero_frequency (m : module) (st : conv_state) :
  1 <= attention_count m -> convert_module 0 m st = Raise ZeroDivisionError.
Proof.
  revert st. induction m as [|l p|cs IH] using module_ind'; intros st H.
  - reflexivity.
  - cbn in H. lia.
  - rewrite convert_module_container. cbn [attention_count] in H.
    assert (E : recurse_convert 0 cs st = Raise ZeroDivisionError).
    { revert st. induction IH as [|c cs IHc _ IHcs]; intros st; [cbn in H; lia|].
      cbn [foldr] in H. cbn [recurse_convert].
      destruct (Nat.eq_dec (attention_count c) 0) as [Hz|Hnz].
      - rewrite convert_module_no_attention by exact Hz. cbn [bind fst snd].
        rewrite IHcs by lia. reflexivity.
      - rewrite IHc by lia. reflexivity. }
    rewrite E. reflexivity.
Qed.

(** What a conversion that returns has done. *)
Lemma convert_kvcache_inv (model model' : module) (pf : Z) :
  (0 < pf)%Z ->
  experimental_layers model = [] ->
  convert_kvcache_experimental model pf = Ok model' ->
  1 <= attention_count model'
       + length (experimental_layers model')
  /\ attention_count model' = 0
  /\ exists cs, model = Container cs
     /\ 1 <= attention_count model
     /\ experimental_layers model'
        = assigned_layer pf <$> seq 0 (attention_count model).
Proof.
  intros Hpf Hfresh H. unfold convert_kvcache_experimental in H.
  apply bind_ok_inv in H as ([cs' st'] & Hrun & H). cbn [fst snd] in H.
  destruct (snd st') as [producer|] eqn:Ep; [|discriminate].
  apply Ok_inj in H. subst model'.
  destruct model as [|l p|cs]; cbn [children_of] in Hrun.
  - apply Ok_inj in Hrun. injection Hrun as <- <-. discriminate.
  - discriminate.
  - assert (Hc : convert_module pf (Container cs) (0, None) = Ok (Container cs', st')).
    { rewrite convert_module_container, Hrun. reflexivity. }
    assert (H0 : walk_state pf (0, None)) by reflexivity.
    destruct (convert_module_spec pf (Container cs) Hpf _ _ _ Hfresh H0 Hc)
      as (Hidx & Hst & Hatt & Hlayers).
    cbn [fst with_children] in *.
    assert (Hpos : 1 <= attention_count (Container cs)).
    { unfold walk_state in Hst. rewrite Hidx in Hst.
      destruct (attention_count (Container cs)); [congruence | lia]. }
    split; [rewrite Hlayers, length_fmap, length_seq; lia|].
    split; [exact Hatt|]. exists cs. auto.
Qed.

(** A conversion with a positive producer frequency of a model that
    holds no converted layer: the model has attention layers, none is
    left unconverted, and the [k]-th of them (in the order of the walk)
    is a producer with [layer_idx = 0] when [k] is a multiple of the
    frequency and otherwise a consumer with [layer_idx = k] whose
    producer is the one created at the latest multiple of the
    frequency. *)
Theorem convert_assigns_layers (model model' : module) (pf : Z) :
  (0 < pf)%Z ->
  experimental_layers model = [] ->
  convert_kvcache_experimental model pf = Ok model' ->
  1 <= attention_count model
  /\ attention_count model' = 0
  /\ experimental_layers model'
     = assigned_layer pf <$> seq 0 (attention_count model).
Proof.
  intros Hpf Hfresh H.
  destruct (convert_kvcache_inv _ _ _ Hpf Hfresh H) as (_ & Hatt & cs & _ & Hpos & Hl).
  auto.
Qed.

Lemma convert_assigns_layers_witness :
  1 <= attention_count example_model
  /\ attention_count
       (Container
          [Container [Experimental 0 None; Container []];
           Container [Experimental 1 (Some 0)]; Experimental 0 None;
           Container [Container [Experimental 3 (Some 2); Experimental 0 None]]]) = 0
  /\ experimental_layers
       (Container
          [Container [Experimental 0 None; Container []];
           Container [Experimental 1 (Some 0)]; Experimental 0 None;
           Container [Container [Experimental 3 (Some 2); Experimental 0 None]]])
     = assigned_layer 2 <$> seq 0 (attention_count example_model).
Proof.
  apply (convert_assigns_layers example_model _ 2).
  - lia.
  - reflexivity.
  - reflexivity.
Defined.

(** With a producer frequency of 1 every converted layer is a producer
    with [layer_idx = 0], so that every accepted policy leaves every
    layer of the model dense. *)
Theorem convert_frequency_one_all_dense
    (topk_selection : layer -> list (list Q) -> list (list ext) -> result (list (list ext)))
    (snapkv_mask_only : list (list Q) -> option (list ext))
    (model model' : module) (e : nat * option nat) (L : layer)
    (scores probs : list (list Q)) (attention_mask : list (list ext))
    (cache : option (list ext)) (hist : option eviction_state) :
  experimental_layers model = [] ->
  convert_kvcache_experimental model 1 = Ok model' ->
  e ∈ experimental_layers model' ->
  e = (0, None)
  /\ (layer_idx L = fst e ->
      accepted_eval_mode (eval_llm_mode L) = true ->
      policy_branch topk_selection snapkv_mask_only L scores probs attention_mask
        cache hist = Ok (dense_out scores cache hist)).
Proof.
  intros Hfresh H He.
  assert (Hpf : (0 < 1)%Z) by lia.
  destruct (convert_kvcache_inv _ _ _ Hpf Hfresh H) as (_ & _ & cs & _ & _ & Hl).
  rewrite Hl in He. apply list_elem_of_fmap in He as (k & -> & _).
  assert (E : assigned_layer 1 k = (0, None)).
  { unfold assigned_layer. rewrite Z.mod_1_r. reflexivity. }
  rewrite E. split; [reflexivity|]. cbn [fst]. intros Hidx Hacc.
  apply policy_branch_layer0; assumption.
Qed.

Lemma convert_frequency_one_all_dense_witness :
  (0, @None nat) = (0, None)
  /\ (layer_idx (example_layer 0 "h2o_true" (1 # 2) 2) = fst (0, @None nat) ->
      accepted_eval_mode (eval_llm_mode (example_layer 0 "h2o_true" (1 # 2) 2)) = true ->
      policy_branch no_topk no_snapkv_mask (example_layer 0 "h2o_true" (1 # 2) 2)
        example_scores [] [] None None
      = Ok (dense_out example_scores None None)).
Proof.
  apply (convert_frequency_one_all_dense no_topk no_snapkv_mask example_model
           (Container
              [Container [Experimental 0 None; Container []];
               Container [Experimental 0 None]; Experimental 0 None;
               Container [Container [Experimental 0 None; Experimental 0 None]]])).
  - reflexivity.
  - reflexivity.
  - cbn. apply list_elem_of_here.
Defined.

(** Failures of the conversion: a model whose children hold no
    attention layer raises AttributeError for any frequency, in
    particular a model that has been converted before; a frequency of 0
    raises ZeroDivisionError as soon as there is an attention layer. *)
Theorem convert_failures (model model' : module) (pf pf' : Z) :
  (Forall (fun c => attention_count c = 0) (children_of model) ->
   convert_kvcache_experimental model pf = Raise AttributeError)
  /\ ((0 < pf)%Z -> experimental_layers model = [] ->
      convert_kvcache_experimental model pf = Ok model' ->
      convert_kvcache_experimental model' pf' = Raise AttributeError)
  /\ (Exists (fun c => 1 <= attention_count c) (children_of model) ->
      convert_kvcache_experimental model 0 = Raise ZeroDivisionError).
Proof.
  assert (Hnone : forall m p,
            Forall (fun c => attention_count c = 0) (children_of m) ->
            convert_kvcache_experimental m p = Raise AttributeError).
  { intros m p Hall. unfold convert_kvcache_experimental.
    assert (E : forall st, recurse_convert p (children_of m) st
                           = Ok (children_of m, st)).
    { induction Hall as [|c cs Hc _ IH]; intros st; [reflexivity|].
      cbn [recurse_convert]. rewrite convert_module_no_attention by exact Hc.
      cbn [bind fst snd]. rewrite IH. reflexivity. }
    rewrite E. reflexivity. }
  split; [apply Hnone|]. split.
  - intros Hpf Hfresh H. apply Hnone.
    destruct (convert_kvcache_inv _ _ _ Hpf Hfresh H) as (_ & Hatt & cs & -> & _).
    unfold convert_kvcache_experimental in H.
    apply bind_ok_inv in H as ([cs' st'] & _ & H). cbn [fst snd] in H.
    destruct (snd st'); [|discriminate]. apply Ok_inj in H. subst model'.
    cbn [with_children children_of attention_count] in *.
    apply attention_sum_zero, Hatt.
  - intros Hex. unfold convert_kvcache_experimental.
    assert (E : forall st, recurse_convert 0 (children_of model) st
                           = Raise ZeroDivisionError).
    { induction Hex as [c cs Hc | c cs _ IH]; intros st; cbn [recurse_convert].
      - rewrite convert_module_zero_frequency by exact Hc. reflexivity.
      - destruct (Nat.eq_dec (attention_count c) 0) as [Hz|Hnz].
        + rewrite convert_module_no_attention by exact Hz. cbn [bind fst snd].
          rewrite IH. reflexivity.
        + rewrite convert_module_zero_frequency by lia. reflexivity. }
    rewrite E. reflexivity.
Qed.

Lemma convert_failures_witness :
  convert_kvcache_experimental (Container [Container []]) 2 = Raise AttributeError
  /\ convert_kvcache_experimental example_model 0 = Raise ZeroDivisionError.
Proof.
  pose proof (convert_failures (Container [Container []]) LlamaAttention 2 2)
    as (H1 & _ & _).
  pose proof (convert_failures example_model LlamaAttention 0 0) as (_ & _ & H3).
  split.
  - apply H1. repeat constructor.
  - apply H3. apply Exists_cons_hd. simpl. lia.
Defined.

(** ** The decode step of h2o_true *)

Lemma mask_row_attendable_valid (kv : nat) (st : eviction_state) (row : list ext) :
  mask_row kv st = Ok row -> attendable row <= length (valid_tokens st).
Proof.
  unfold mask_row. destruct (forallb _ _); [|discriminate].
  intros H. apply Ok_inj in H. subst row. apply attendable_members, NoDup_seq.
Qed.

Lemma budget_for_nonneg (s : Q) (msi n : nat) : (0 <= budget_for s msi n)%Z.
Proof. unfold budget_for. lia. Qed.

(** A decode step of h2o_true that returns: the mask row spans all
    keys and un-masks at most [max_budget] of them (no prefix is added
    here); the active count grows by one exactly when it was below the
    budget and is unchanged otherwise. *)
Theorem h2o_decode_within_budget (s : Q) (msi kv : nat) (row_scores : list Q)
    (hist st' : eviction_state) (row : list ext) :
  1 <= kv ->
  h2o_decode s msi kv row_scores hist = Ok (row, st') ->
  length row = kv
  /\ (Z.of_nat (attendable row) <= budget_for s msi kv)%Z
  /\ active_counts st'
     = (if (Z.of_nat (active_counts hist) <? budget_for s msi kv)%Z
        then S (active_counts hist) else active_counts hist).
Proof.
  intros Hkv H. unfold h2o_decode in H.
  replace (kv - 1 + 1) with kv in H by lia.
  apply bind_ok_inv in H as (st & Hst & H).
  apply bind_ok_inv in H as (r & Hrow & E). apply Ok_inj in E.
  injection E as <- <-.
  split; [eapply mask_row_length; eauto|]. split.
  - apply mask_row_attendable_valid in Hrow.
    unfold valid_tokens in Hrow. cbn [active_tokens active_counts] in Hrow.
    rewrite !length_take in Hrow.
    pose proof (budget_for_nonneg s msi kv). lia.
  - destruct (Z.of_nat (active_counts hist) <? budget_for s msi kv)%Z.
    + apply bind_ok_inv in Hst as (toks & _ & E). apply Ok_inj in E.
      subst st. reflexivity.
    + apply bind_ok_inv in Hst as (imps & _ & Hst).
      apply bind_ok_inv in Hst as (min_r & _ & Hst).
      apply bind_ok_inv in Hst as (new_imp & _ & Hst).
      destruct (Qlt_le_dec (fst min_r) new_imp).
      * apply bind_ok_inv in Hst as (toks & _ & E). apply Ok_inj in E.
        subst st. reflexivity.
      * apply Ok_inj in Hst. subst st. reflexivity.
Qed.

Lemma h2o_decode_within_budget_witness :
  length [NegInf; NegInf; Fin 0; Fin 0; NegInf] = 5
  /\ (Z.of_nat (attendable [NegInf; NegInf; Fin 0; Fin 0; NegInf])
      <= budget_for (1 # 2) 2 5)%Z
  /\ active_counts {| active_tokens := [2; 3; 0]; active_counts := 2 |}
     = (if Z.ltb (Z.of_nat 2) (budget_for (1 # 2) 2 5) then 3 else 2).
Proof.
  apply (h2o_decode_within_budget (1 # 2) 2 5 [9; 9; 9; 9; 0]%Q
           {| active_tokens := [2; 3]; active_counts := 2 |}
           {| active_tokens := [2; 3; 0]; active_counts := 2 |}
           [NegInf; NegInf; Fin 0; Fin 0; NegInf]).
  - lia.
  - vm_compute. reflexivity.
Defined.

Lemma loop_state_shape (s : Q) (msi : nat) (importance : nat -> list Q) (M : Z)
    (kv n : nat) (st : eviction_state) (rows : list (list ext)) :
  1 <= Z.to_nat M ->
  for_each (loop_body s msi importance kv) (seq 1 n)
    (initial_state M, [ <[0 := Fin 0]> (replicate kv NegInf) ]) = Ok (st, rows) ->
  length (active_tokens st) = Z.to_nat M
  /\ active_counts st <= Z.to_nat M.
Proof.
  intros HM. revert st rows. induction n as [|n IH]; intros st rows H.
  - apply Ok_inj in H. injection H as <- <-. cbn. rewrite length_replicate. lia.
  - rewrite for_each_snoc in H.
    apply bind_ok_inv in H as ([st0 rows0] & Hrun & Hbody).
    destruct (IH _ _ Hrun) as [Hlen Hcount].
    unfold loop_body in Hbody. cbn [fst snd] in Hbody.
    apply bind_ok_inv in Hbody as (st1 & Hstep & Hbody).
    apply bind_ok_inv in Hbody as (row & _ & E). apply Ok_inj in E.
    injection E as <- <-.
    pose proof (evict_step_length _ _ _ _ _ Hstep) as [Hl _].
    apply evict_step_outcome in Hstep.
    split; [lia|].
    destruct Hstep as [_ Hslot -> | ? ? ? ? _ _ _ _ [(_ & _ & ->) | (_ & ->)]];
      cbn [active_counts]; lia.
Qed.

Lemma h2o_prefill_inv (s : Q) (msi : nat) (importance : nat -> list Q)
    (q_len kv : nat) (r : list (list ext) * eviction_state) :
  h2o_prefill s msi importance q_len kv = Ok r ->
  (0 < budget_for s msi kv)%Z
  /\ incremental_prefill s msi importance (budget_for s msi kv) q_len kv = Ok r.
Proof.
  unfold h2o_prefill.
  destruct (Z.leb_spec (budget_for s msi kv) 0); [discriminate|]. auto.
Qed.

Lemma h2o_prefill_allocated (s : Q) (msi : nat) (importance : nat -> list Q)
    (q_len kv : nat) :
  (0 < budget_for s msi kv)%Z ->
  h2o_prefill s msi importance q_len kv
  = incremental_prefill s msi importance (budget_for s msi kv) q_len kv.
Proof.
  intros H. unfold h2o_prefill.
  destruct (Z.leb_spec (budget_for s msi kv) 0); [lia | reflexivity].
Qed.

(** With a prefix of at least one token and a retained fraction that
    is not negative, the decode step that follows a completed h2o_true
    prefill over [N] tokens completes as well: the persisted state it
    receives keeps every index operation of the step in range. *)
Theorem h2o_decode_after_prefill (s : Q) (msi : nat) (importance : nat -> list Q)
    (N : nat) (rows : list (list ext)) (st : eviction_state) (row_scores : list Q) :
  (0 <= s)%Q -> 1 <= msi ->
  h2o_prefill s msi importance N N = Ok (rows, st) ->
  length row_scores = S N ->
  exists row st', h2o_decode s msi (S N) row_scores st = Ok (row, st').
Proof.
  intros Hs Hmsi Hpre Hlen. apply h2o_prefill_inv in Hpre as [_ Hpre].
  apply incremental_prefill_inv in Hpre as (HN & _ & raw & Hrun & _).
  assert (HM : 1 <= Z.to_nat (budget_for s msi N)) by (unfold budget_for; lia).
  destruct (loop_rows_inv _ _ _ _ _ _ _ _ HN Hrun) as (_ & Hall & Hc1 & _).
  destruct (loop_state_shape _ _ _ _ _ _ _ _ HM Hrun) as [Hl Hc].
  pose proof (budget_for_mono s msi N (S N) Hs ltac:(lia)) as Hmono.
  pose proof (budget_for_nonneg s msi N) as Hnn.
  unfold h2o_decode. replace (S N - 1) with N by lia.
  replace (N + 1) with (S N) by lia.
  set (mb := budget_for s msi (S N)) in *.
  destruct (Z.leb_spec (Z.of_nat (length (active_tokens st))) mb) as [_|Hgt]; [|lia].
  set (prev := take (Z.to_nat mb + 1)
                 (active_tokens st ++ replicate (length (active_tokens st)) 0)).
  assert (Hprev_len : length prev
                      = (Z.to_nat mb + 1) `min` (2 * length (active_tokens st))).
  { subst prev. rewrite length_take, length_app, length_replicate. lia. }
  assert (Hprev_all : Forall (fun t => t < S N) prev).
  { subst prev. apply Forall_take, Forall_app. split.
    - eapply Forall_impl; [exact Hall|]. cbn. lia.
    - apply Forall_replicate. lia. }
  rewrite take_ge by lia.
  assert (Hmask : forall toks c,
            Forall (fun t => t < S N) toks ->
            exists row, mask_row (S N)
                          {| active_tokens := take (Z.to_nat mb) toks;
                             active_counts := c |} = Ok row).
  { intros toks c Ht. apply mask_row_total. cbn [active_tokens].
    apply Forall_take, Ht. }
  destruct (Z.ltb_spec (Z.of_nat (active_counts st)) mb) as [Hlt|Hge].
  - destruct (active_counts st) as [|c] eqn:Ec; [lia|].
    unfold set_item.
    destruct (Nat.ltb_spec c (length prev)) as [_|Hbad]; [|lia].
    cbn [bind active_tokens active_counts].
    destruct (Hmask (<[c := N]> prev) (S (S c))) as [row Hrow].
    { apply Forall_insert; [exact Hprev_all | lia]. }
    rewrite Hrow. cbn [bind]. eauto.
  - destruct (gather_total row_scores (take (Z.to_nat mb) prev)) as [vs Hg].
    { apply Forall_take. rewrite Hlen. exact Hprev_all. }
    rewrite Hg. cbn [bind].
    assert (Hvs : length vs = Z.to_nat mb `min` length prev).
    { apply gather_spec, Forall2_length in Hg. rewrite length_take in Hg. lia. }
    unfold torch_min. destruct (min_with_index_some vs) as [[m pos] Hm].
    { destruct vs; [simpl in Hvs; lia | discriminate]. }
    rewrite Hm. cbn [bind]. unfold get_item.
    destruct (lookup_lt_is_Some_2 row_scores N ltac:(lia)) as [new_imp ->].
    cbn [bind fst snd].
    destruct (Qlt_le_dec m new_imp).
    + apply min_with_index_lt in Hm. unfold set_item.
      destruct (Nat.ltb_spec pos (length prev)) as [_|Hbad]; [|lia].
      cbn [bind active_tokens active_counts].
      destruct (Hmask (<[pos := N]> prev) (active_counts st)) as [row Hrow].
      { apply Forall_insert; [exact Hprev_all | lia]. }
      rewrite Hrow. cbn [bind]. eauto.
    + cbn [bind active_tokens active_counts].
      destruct (Hmask prev (active_counts st) Hprev_all) as [row Hrow].
      rewrite Hrow. cbn [bind]. eauto.
Qed.

Lemma h2o_decode_after_prefill_witness :
  exists row st',
    h2o_decode (1 # 2) 2 5 [9; 9; 9; 9; 0]%Q
      {| active_tokens := [2; 3]; active_counts := 2 |} = Ok (row, st').
Proof.
  apply (h2o_decode_after_prefill (1 # 2) 2 (h2o_row_weights example_scores) 4
           [[Fin 0; Fin 0; NegInf; NegInf]; [Fin 0; Fin 0; NegInf; NegInf];
            [Fin 0; Fin 0; Fin 0; NegInf]; [Fin 0; Fin 0; Fin 0; Fin 0]]
           {| active_tokens := [2; 3]; active_counts := 2 |} [9; 9; 9; 9; 0]%Q).
  - unfold Qle; simpl; lia.
  - lia.
  - vm_compute. reflexivity.
  - reflexivity.
Defined.

(** ** Prefill on real importance signals *)

Lemma max_pool1d_length (l : list Q) :
  length (max_pool1d kernel_size (kernel_size / 2) l) = length l.
Proof.
  unfold max_pool1d. rewrite length_fmap, length_seq.
  change (kernel_size / 2) with 3. change kernel_size with 7. lia.
Qed.

Lemma snapkv_importance_length (probs : list (list Q)) (i : nat) :
  length (snapkv_importance probs i) = S i.
Proof.
  unfold snapkv_importance. rewrite max_pool1d_length.
  unfold snapkv_aggregator. rewrite length_fmap, length_seq. lia.
Qed.

Lemma h2o_row_weights_length (scores : list (list Q)) (kv i : nat) :
  Forall (fun r => length r = kv) scores -> i < length scores -> i < kv ->
  length (h2o_row_weights scores i) = S i.
Proof.
  intros Hall Hi Hk. unfold h2o_row_weights.
  destruct (lookup_lt_is_Some_2 scores i Hi) as [r Hr]. rewrite Hr. cbn [default].
  rewrite length_take.
  pose proof (Forall_lookup_1 _ _ _ _ Hall Hr) as Hlr. cbn beta in Hlr.
  unfold id. lia.
Qed.

Lemma incremental_prefill_runs (s : Q) (msi : nat) (importance : nat -> list Q)
    (tokens q_len kv : nat) :
  (0 <= s)%Q -> 1 <= msi -> 1 <= q_len -> q_len <= kv -> q_len <= tokens ->
  (forall i, i < q_len -> length (importance i) = S i) ->
  exists rows st,
    incremental_prefill s msi importance (budget_for s msi tokens) q_len kv
    = Ok (rows, st)
    /\ length rows = q_len.
Proof.
  intros Hs Hmsi Hq Hkv Htok Himp.
  destruct (eviction_loop_runs s msi importance tokens q_len kv Hs Hmsi Hq Hkv Htok Himp)
    as [[st raw] Hrun].
  unfold incremental_prefill. rewrite Hrun. cbn [bind fst snd].
  do 2 eexists. split; [reflexivity|].
  unfold eviction_loop in Hrun.
  destruct ((q_len =? 0) || (kv =? 0)); [discriminate|].
  assert (Hkv1 : 1 <= kv) by lia.
  destruct (loop_rows_inv _ _ _ _ _ _ _ _ Hkv1 Hrun) as (Hlen & _).
  rewrite length_fmap, Hlen. lia.
Qed.

(** With a prefix of at least one token, a retained fraction that is
    not negative and a well-shaped score matrix (one row per query, one
    column per key, no more queries than keys), the prefill of snapkv
    and the prefill of h2o_true both return a mask, whatever the
    attention values are. *)
Theorem prefill_completes (s : Q) (msi : nat) (probs scores : list (list Q))
    (q_len kv : nat) :
  (0 <= s)%Q -> 1 <= msi -> 1 <= q_len -> q_len <= kv ->
  length scores = q_len ->
  Forall (fun r => length r = kv) scores ->
  (exists rows cache,
     snapkv_prefill s msi (snapkv_importance probs) q_len kv = Ok (rows, cache)
     /\ length rows = q_len /\ last rows = Some cache)
  /\ (exists rows st,
        h2o_prefill s msi (h2o_row_weights scores) q_len kv = Ok (rows, st)
        /\ length rows = q_len).
Proof.
  intros Hs Hmsi Hq Hkv Hlen Hshape. split.
  - destruct (incremental_prefill_runs s msi (snapkv_importance probs) q_len q_len kv
                Hs Hmsi Hq Hkv (Nat.le_refl _)) as (rows & st & Hrun & Hrows).
    { intros i _. apply snapkv_importance_length. }
    unfold snapkv_prefill. rewrite Hrun. cbn [bind fst].
    destruct (last rows) as [cache|] eqn:El.
    + exists rows, cache. auto.
    + apply last_None in El. subst rows. simpl in Hrows. lia.
  - rewrite h2o_prefill_allocated by (unfold budget_for; lia).
    apply (incremental_prefill_runs s msi (h2o_row_weights scores) kv q_len kv
             Hs Hmsi Hq Hkv Hkv).
    intros i Hi. apply (h2o_row_weights_length scores kv); [exact Hshape | lia | lia].
Qed.

Lemma prefill_completes_witness :
  (exists rows cache,
     snapkv_prefill (1 # 2) 2 (snapkv_importance example_probs) 4 4 = Ok (rows, cache)
     /\ length rows = 4 /\ last rows = Some cache)
  /\ (exists rows st,
        h2o_prefill (1 # 2) 2 (h2o_row_weights example_scores) 4 4 = Ok (rows, st)
        /\ length rows = 4).
Proof.
  apply (prefill_completes (1 # 2) 2 example_probs example_scores 4 4).
  - unfold Qle; simpl; lia.
  - lia.
  - lia.
  - lia.
  - reflexivity.
  - repeat constructor.
Defined.
